(** * Stage chains of the design-patterns examples

    A shallow embedding of three example programs and the properties of
    their chain constructs:

    - [ChainOfResponsibility.py]: the exception handlers and the driver
      [ChainExceptionHandler.handle_exception];
    - [Composite_pipelining.py]: the aggregating [Pipeline];
    - [Decorator_pipelining.py]: the linked chain of transformer steps and
      the [Pipeline] that wires it.

    Python objects that are mutated and shared (pipelines, steps) live in
    an explicit heap and are designated by their location; exceptions
    raised by the interpreter are results of type [Result]. *)

From stdpp Require Import base option list strings.

(** ** Python preliminaries *)

(** Object identity: the location of the object in the heap. *)
Abbreviation loc := nat (only parsing).

(** The built-in exceptions the modelled code can run into. *)
Inductive PyError :=
| TypeError
| IndexError
| AttributeError
| RecursionError.

(** Outcome of a call: a returned value or a raised exception. *)
Inductive Result (A : Type) : Type :=
| Ok (a : A)
| Raise (e : PyError).
Arguments Ok {A} a.
Arguments Raise {A} e.

#[global] Instance Result_ret : MRet Result := @Ok.
#[global] Instance Result_bind : MBind Result :=
  fun A B k r => match r with Ok a => k a | Raise e => Raise e end.

(** The values that flow through the pipelines: [None], the [...] object
    the stubs of the examples produce, or a reference to a heap object. *)
Inductive PyObject :=
| None_
| Ellipsis
| Ref (l : loc).

#[global] Instance PyError_eq_dec : EqDecision PyError.
Proof. solve_decision. Defined.
#[global] Instance PyObject_eq_dec : EqDecision PyObject.
Proof. solve_decision. Defined.

(** ** ChainOfResponsibility.py *)

Module ChainOfResponsibility.

(** [class LogLevel(IntEnum)] *)
Inductive LogLevel := DEBUG | INFO | WARN | ERROR.

Definition LogLevel_value (l : LogLevel) : nat :=
  match l with DEBUG => 1 | INFO => 2 | WARN => 3 | ERROR => 4 end.

#[global] Instance LogLevel_eq_dec : EqDecision LogLevel.
Proof. solve_decision. Defined.

(** The exception classes the handlers tell apart with [isinstance]; a
    class stands for itself and its subclasses, [OtherException] for every
    class outside the three hierarchies. *)
Inductive ExceptionClass :=
| ModuleNotFoundError
| KeyboardInterrupt
| NotImplementedError
| OtherException.

#[global] Instance ExceptionClass_eq_dec : EqDecision ExceptionClass.
Proof. solve_decision. Defined.

(** An exception instance: its class, the text [str(ex)] that an f-string
    interpolates, and the [name] attribute ([None] or a module name) that the
    code reads on a [ModuleNotFoundError]. *)
Record BaseException := {
  cls : ExceptionClass;
  str : string;
  name : option string
}.

Definition isinstance (ex : BaseException) (c : ExceptionClass) : bool :=
  bool_decide (cls ex = c).

(** The collaborators [ILogger], [IGracefulShutdown] and [IPluginLoader] are
    abstract interfaces.  An implementation is known by its identity, and
    every call made on it is recorded; a plugin loader also answers. *)
Abbreviation ILogger := loc (only parsing).
Abbreviation IGracefulShutdown := loc (only parsing).

Record IPluginLoader := {
  plugin_loader_ref : loc;
  try_load_from_plugin : string -> bool
}.

(** [class PluginLoader]: [try_load_from_plugin] returns [True]. *)
Definition PluginLoader (ref : loc) : IPluginLoader :=
  {| plugin_loader_ref := ref; try_load_from_plugin := fun _ => true |}.

(** A call on a collaborator, as an instrumented implementation sees it. *)
Inductive Call :=
| Call_log (logger : loc) (message : string) (log_level : LogLevel)
| Call_try_load_from_plugin (plugin_loader : loc) (module_name : string)
| Call_shutdown (graceful_shutdown : loc).

#[global] Instance Call_eq_dec : EqDecision Call.
Proof. solve_decision. Defined.

(** [@dataclass class ExceptionHandlingContext] *)
Record ExceptionHandlingContext := {
  exception : BaseException;
  is_handled : bool
}.

Definition set_is_handled (ctx : ExceptionHandlingContext) (b : bool)
  : ExceptionHandlingContext :=
  {| exception := exception ctx; is_handled := b |}.

(** [class IExceptionHandler]: [handle] receives the context by reference,
    may mutate it and may call collaborators; it returns the context as it
    leaves it and the calls it made, in order. *)
Record IExceptionHandler := {
  handle : ExceptionHandlingContext -> ExceptionHandlingContext * list Call
}.

Definition ModuleNotFoundErrorHandler (plugin_loader : IPluginLoader)
    (logger : ILogger) : IExceptionHandler :=
  {| handle := fun exception_handling_context =>
       if negb (isinstance (exception exception_handling_context) ModuleNotFoundError)
       then (exception_handling_context, [])
       else
         match name (exception exception_handling_context) with
         | None =>
             (exception_handling_context,
              [Call_log logger
                 ("ModuleNotFoundError without module name: "
                    +:+ str (exception exception_handling_context)) ERROR])
         | Some module_name =>
             (set_is_handled exception_handling_context
                (try_load_from_plugin plugin_loader module_name),
              [Call_try_load_from_plugin (plugin_loader_ref plugin_loader) module_name])
         end |}.

Definition KeyboardInterruptHandler (graceful_shutdown : IGracefulShutdown)
  : IExceptionHandler :=
  {| handle := fun exception_handling_context =>
       if negb (isinstance (exception exception_handling_context) KeyboardInterrupt)
       then (exception_handling_context, [])
       else (set_is_handled exception_handling_context true,
             [Call_shutdown graceful_shutdown]) |}.

Definition NotImplementedErrorHandler (graceful_shutdown : IGracefulShutdown)
    (logger : ILogger) : IExceptionHandler :=
  {| handle := fun exception_handling_context =>
       if negb (isinstance (exception exception_handling_context) NotImplementedError)
       then (exception_handling_context, [])
       else (set_is_handled exception_handling_context true,
             [Call_log logger
                ("NotImplemented error: "
                   +:+ str (exception exception_handling_context)) ERROR;
              Call_shutdown graceful_shutdown]) |}.

Definition UnexpectedExceptionHandler (graceful_shutdown : IGracefulShutdown)
    (logger : ILogger) : IExceptionHandler :=
  {| handle := fun exception_handling_context =>
       (set_is_handled exception_handling_context true,
        [Call_log logger
           ("Unexpected exception: "
              +:+ str (exception exception_handling_context)) ERROR;
         Call_shutdown graceful_shutdown]) |}.

(** [class ChainExceptionHandler] *)
Record ChainExceptionHandler := {
  graceful_shutdown : IGracefulShutdown;
  exception_handlers : list IExceptionHandler
}.

(** What one [handle_exception] call did: the context as the loop left it,
    the handlers whose [handle] was called (position in the configured
    sequence, and the calls that handler made), and the calls made by the
    [else] branch of the loop. *)
Record Outcome := {
  context : ExceptionHandlingContext;
  invoked : list (nat * list Call);
  fallback : list Call
}.

(** The [for handler in self.__exception_handlers] loop from position [i];
    the boolean tells whether the loop was left by [break]. *)
Fixpoint for_handlers (i : nat) (handlers : list IExceptionHandler)
    (handling_context : ExceptionHandlingContext)
  : ExceptionHandlingContext * list (nat * list Call) * bool :=
  match handlers with
  | [] => (handling_context, [], false)
  | handler :: rest =>
      let '(ctx, calls) := handle handler handling_context in
      if is_handled ctx then (ctx, [(i, calls)], true)
      else
        let '(ctx', inv, broke) := for_handlers (S i) rest ctx in
        (ctx', (i, calls) :: inv, broke)
  end.

Definition handle_exception (self : ChainExceptionHandler)
    (exception : BaseException) : Outcome :=
  let handling_context := {| exception := exception; is_handled := false |} in
  let '(ctx, inv, broke) :=
    for_handlers 0 (exception_handlers self) handling_context in
  {| context := ctx;
     invoked := inv;
     fallback := if broke then [] else [Call_shutdown (graceful_shutdown self)] |}.

(** The chain that [good_main] configures. *)
Definition good_main_handler (graceful_shutdown : IGracefulShutdown)
    (logger : ILogger) (plugin_loader : IPluginLoader) : ChainExceptionHandler :=
  {| graceful_shutdown := graceful_shutdown;
     exception_handlers :=
       [ModuleNotFoundErrorHandler plugin_loader logger;
        KeyboardInterruptHandler graceful_shutdown;
        NotImplementedErrorHandler graceful_shutdown logger;
        UnexpectedExceptionHandler graceful_shutdown logger] |}.

(** *** Observations on an outcome *)

(** Every call on a collaborator, in the order the calls were made. *)
Definition trace (out : Outcome) : list Call :=
  concat (map snd (invoked out)) ++ fallback out.

(** The positions of the handlers whose [handle] ran. *)
Definition invoked_positions (out : Outcome) : list nat :=
  map fst (invoked out).

Definition is_log_with_prefix (p : string) (c : Call) : bool :=
  match c with
  | Call_log _ message _ => String.prefix p message
  | _ => false
  end.

Definition log_entries_with_prefix (p : string) (calls : list Call) : nat :=
  length (filter (fun c => is_log_with_prefix p c = true) calls).

(** The context after every handler of [handlers] ran on it, one after the
    other. *)
Definition context_after (handlers : list IExceptionHandler)
    (ctx : ExceptionHandlingContext) : ExceptionHandlingContext :=
  fold_left (fun c h => (handle h c).1) handlers ctx.

(** The calls the handlers of [handlers] make when each one runs in turn,
    with the position of each handler, counted from [i]. *)
Fixpoint calls_of (i : nat) (handlers : list IExceptionHandler)
    (ctx : ExceptionHandlingContext) : list (nat * list Call) :=
  match handlers with
  | [] => []
  | h :: rest => (i, (handle h ctx).2) :: calls_of (S i) rest (handle h ctx).1
  end.

(** Every handler of [handlers], run in turn from [ctx], leaves
    [is_handled] false. *)
Fixpoint all_decline (handlers : list IExceptionHandler)
    (ctx : ExceptionHandlingContext) : bool :=
  match handlers with
  | [] => true
  | h :: rest =>
      negb (is_handled (handle h ctx).1) && all_decline rest (handle h ctx).1
  end.

(** *** The handler written with [if]/[elif]/[else] *)

(** [class GodExceptionHandler] *)
Record GodExceptionHandler := {
  god_plugin_loader : IPluginLoader;
  god_graceful_shutdown : IGracefulShutdown;
  god_logger : ILogger
}.

(** The private methods return [did_handle]; the calls they make are
    returned with it. *)
Definition _handle_module_not_found_error (self : GodExceptionHandler)
    (ex : BaseException) : bool * list Call :=
  match name ex with
  | None =>
      (false,
       [Call_log (god_logger self)
          ("ModuleNotFoundError without module name: " +:+ str ex) ERROR])
  | Some module_name =>
      (try_load_from_plugin (god_plugin_loader self) module_name,
       [Call_try_load_from_plugin
          (plugin_loader_ref (god_plugin_loader self)) module_name])
  end.

Definition _handle_keyboard_interrupt (self : GodExceptionHandler)
    (ex : BaseException) : bool * list Call :=
  (true, [Call_shutdown (god_graceful_shutdown self)]).

Definition _handle_not_implemented_error (self : GodExceptionHandler)
    (ex : BaseException) : bool * list Call :=
  (true,
   [Call_log (god_logger self) ("NotImplemented error: " +:+ str ex) ERROR;
    Call_shutdown (god_graceful_shutdown self)]).

Definition _handle_unexpected_exception (self : GodExceptionHandler)
    (ex : BaseException) : bool * list Call :=
  (true,
   [Call_log (god_logger self) ("Unexpected exception: " +:+ str ex) ERROR;
    Call_shutdown (god_graceful_shutdown self)]).

(** [GodExceptionHandler.handle_exception]: the calls it makes, in
    order. *)
Definition god_handle_exception (self : GodExceptionHandler)
    (ex : BaseException) : list Call :=
  let '(did_handle, calls) :=
    if isinstance ex ModuleNotFoundError
    then _handle_module_not_found_error self ex
    else if isinstance ex KeyboardInterrupt
    then _handle_keyboard_interrupt self ex
    else if isinstance ex NotImplementedError
    then _handle_not_implemented_error self ex
    else _handle_unexpected_exception self ex in
  calls ++ (if negb did_handle
            then [Call_shutdown (god_graceful_shutdown self)]
            else []).

(** [bad_main] and [good_main]: [service_logic] returns ([None]) or raises
    an exception, which the handler receives.  The collaborators are the
    [PluginLoader], [GracefulShutdown] and [Logger] that the function
    creates, known by their locations. *)
Definition bad_main (plugin_loader graceful_shutdown logger : loc)
    (service_logic : option BaseException) : list Call :=
  let exception_handler :=
    {| god_plugin_loader := PluginLoader plugin_loader;
       god_graceful_shutdown := graceful_shutdown;
       god_logger := logger |} in
  match service_logic with
  | None => []
  | Some e => god_handle_exception exception_handler e
  end.

Definition good_main (plugin_loader graceful_shutdown logger : loc)
    (service_logic : option BaseException) : list Call :=
  let exception_handler :=
    good_main_handler graceful_shutdown logger (PluginLoader plugin_loader) in
  match service_logic with
  | None => []
  | Some e => trace (handle_exception exception_handler e)
  end.

(** *** Further observations *)

Definition is_shutdown (c : Call) : bool :=
  match c with Call_shutdown _ => true | _ => false end.

Definition is_log (c : Call) : bool :=
  match c with Call_log _ _ _ => true | _ => false end.

Definition shutdown_calls (calls : list Call) : nat :=
  length (filter (fun c => is_shutdown c = true) calls).

(** The calls other than the log entries. *)
Definition without_logs (calls : list Call) : list Call :=
  filter (fun c => is_log c = false) calls.

(** The handlers that the file defines. *)
Inductive source_handler : IExceptionHandler -> Prop :=
| source_ModuleNotFoundErrorHandler plugin_loader logger :
    source_handler (ModuleNotFoundErrorHandler plugin_loader logger)
| source_KeyboardInterruptHandler graceful_shutdown :
    source_handler (KeyboardInterruptHandler graceful_shutdown)
| source_NotImplementedErrorHandler graceful_shutdown logger :
    source_handler (NotImplementedErrorHandler graceful_shutdown logger)
| source_UnexpectedExceptionHandler graceful_shutdown logger :
    source_handler (UnexpectedExceptionHandler graceful_shutdown logger).

(** *** Exceptions of several classes *)

(** An exception class can inherit from several of the classes the
    handlers test, so that [isinstance] holds for more than one of them.
    Below, the instance test is [is_a], any relation between exceptions
    and classes; the definitions are those above with [is_a] in the place
    of [isinstance], and are those above when [is_a] is [isinstance]. *)
Section Instances.
Variable is_a : BaseException -> ExceptionClass -> bool.

Definition ModuleNotFoundErrorHandler_for (plugin_loader : IPluginLoader)
    (logger : ILogger) : IExceptionHandler :=
  {| handle := fun exception_handling_context =>
       if negb (is_a (exception exception_handling_context) ModuleNotFoundError)
       then (exception_handling_context, [])
       else
         match name (exception exception_handling_context) with
         | None =>
             (exception_handling_context,
              [Call_log logger
                 ("ModuleNotFoundError without module name: "
                    +:+ str (exception exception_handling_context)) ERROR])
         | Some module_name =>
             (set_is_handled exception_handling_context
                (try_load_from_plugin plugin_loader module_name),
              [Call_try_load_from_plugin (plugin_loader_ref plugin_loader) module_name])
         end |}.

Definition KeyboardInterruptHandler_for (graceful_shutdown : IGracefulShutdown)
  : IExceptionHandler :=
  {| handle := fun exception_handling_context =>
       if negb (is_a (exception exception_handling_context) KeyboardInterrupt)
       then (exception_handling_context, [])
       else (set_is_handled exception_handling_context true,
             [Call_shutdown graceful_shutdown]) |}.

Definition NotImplementedErrorHandler_for (graceful_shutdown : IGracefulShutdown)
    (logger : ILogger) : IExceptionHandler :=
  {| handle := fun exception_handling_context =>
       if negb (is_a (exception exception_handling_context) NotImplementedError)
       then (exception_handling_context, [])
       else (set_is_handled exception_handling_context true,
             [Call_log logger
                ("NotImplemented error: "
                   +:+ str (exception exception_handling_context)) ERROR;
              Call_shutdown graceful_shutdown]) |}.

(** The chain that [good_main] configures. *)
Definition good_main_handler_for (graceful_shutdown : IGracefulShutdown)
    (logger : ILogger) (plugin_loader : IPluginLoader) : ChainExceptionHandler :=
  {| graceful_shutdown := graceful_shutdown;
     exception_handlers :=
       [ModuleNotFoundErrorHandler_for plugin_loader logger;
        KeyboardInterruptHandler_for graceful_shutdown;
        NotImplementedErrorHandler_for graceful_shutdown logger;
        UnexpectedExceptionHandler graceful_shutdown logger] |}.

(** [GodExceptionHandler.handle_exception]: the calls it makes, in
    order. *)
Definition god_handle_exception_for (self : GodExceptionHandler)
    (ex : BaseException) : list Call :=
  let '(did_handle, calls) :=
    if is_a ex ModuleNotFoundError
    then _handle_module_not_found_error self ex
    else if is_a ex KeyboardInterrupt
    then _handle_keyboard_interrupt self ex
    else if is_a ex NotImplementedError
    then _handle_not_implemented_error self ex
    else _handle_unexpected_exception self ex in
  calls ++ (if negb did_handle
            then [Call_shutdown (god_graceful_shutdown self)]
            else []).

Definition bad_main_for (plugin_loader graceful_shutdown logger : loc)
    (service_logic : option BaseException) : list Call :=
  let exception_handler :=
    {| god_plugin_loader := PluginLoader plugin_loader;
       god_graceful_shutdown := graceful_shutdown;
       god_logger := logger |} in
  match service_logic with
  | None => []
  | Some e => god_handle_exception_for exception_handler e
  end.

Definition good_main_for (plugin_loader graceful_shutdown logger : loc)
    (service_logic : option BaseException) : list Call :=
  let exception_handler :=
    good_main_handler_for graceful_shutdown logger (PluginLoader plugin_loader) in
  match service_logic with
  | None => []
  | Some e => trace (handle_exception exception_handler e)
  end.

(** The exception is a [ModuleNotFoundError] that the plugin loader does
    not recover. *)
Definition unrecovered_module_not_found_for (plugin_loader : IPluginLoader)
    (ex : BaseException) : bool :=
  is_a ex ModuleNotFoundError
  && match name ex with
     | None => true
     | Some module_name => negb (try_load_from_plugin plugin_loader module_name)
     end.

(** What the [elif]/[else] branches of [GodExceptionHandler] do with an
    exception, the [ModuleNotFoundError] branch left out. *)
Definition other_branches (graceful_shutdown : IGracefulShutdown)
    (logger : ILogger) (ex : BaseException) : list Call :=
  if is_a ex KeyboardInterrupt
  then [Call_shutdown graceful_shutdown]
  else if is_a ex NotImplementedError
  then [Call_log logger ("NotImplemented error: " +:+ str ex) ERROR;
        Call_shutdown graceful_shutdown]
  else [Call_log logger ("Unexpected exception: " +:+ str ex) ERROR;
        Call_shutdown graceful_shutdown].
End Instances.

End ChainOfResponsibility.

(** ** Composite_pipelining.py *)

Module Composite_pipelining.

(** The objects of the example.  A [FunctionTransformer] wraps a callable,
    which may itself raise.  A [Tuple] is the one iterable the constructor
    of [Pipeline] can be handed; no transformer class defines [__iter__]. *)
Inductive Obj :=
| Dataset
| AddTotalsRowTransformer
| ColumnsSelectorTransformer (columns_to_keep : list string)
| FunctionTransformer (transformer : PyObject -> Result PyObject)
| Pipeline (transformations : list loc)
| Tuple (items : list loc).

Abbreviation Heap := (list Obj) (only parsing).

(** Allocation of a new object: it gets the next unused location. *)
Definition alloc (h : Heap) (o : Obj) : loc * Heap := (length h, h ++ [o]).

(** [Dataset.merge]: returns [self]. *)
Definition merge (self : loc) (other : PyObject) : Result PyObject := Ok (Ref self).

(** [iter(x)] as [list(x)] performs it: the items of a tuple; a
    [TypeError] for an object that is not iterable. *)
Definition iter (h : Heap) (x : loc) : Result (list loc) :=
  match h !! x with
  | Some (Tuple items) => Ok items
  | _ => Raise TypeError
  end.

(** The built-in [list], called with the unpacked arguments: no argument
    gives the empty list, one argument is iterated, more arguments are a
    [TypeError]. *)
Definition list_ (h : Heap) (args : list loc) : Result (list loc) :=
  match args with
  | [] => Ok []
  | [x] => iter h x
  | _ => Raise TypeError
  end.

(** [Pipeline.__init__], called with the unpacked [transformations]:
    [self.__transformations = list( *transformations)]. *)
Definition Pipeline_init (h : Heap) (transformations : list loc)
  : Result (loc * Heap) :=
  ts ← list_ h transformations;
  mret (alloc h (Pipeline ts)).

(** [Pipeline.append]: appends to the list of [self] and returns [self]. *)
Definition Pipeline_append (h : Heap) (self transformer : loc)
  : Result (PyObject * Heap) :=
  match h !! self with
  | Some (Pipeline ts) =>
      Ok (Ref self, <[self := Pipeline (ts ++ [transformer])]> h)
  | _ => Raise AttributeError
  end.

(** [receiver.append(transformer)] where the receiver is the value of an
    expression: [None] and [...] have no [append] attribute. *)
Definition append (h : Heap) (receiver : PyObject) (transformer : loc)
  : Result (PyObject * Heap) :=
  match receiver with
  | Ref self => Pipeline_append h self transformer
  | _ => Raise AttributeError
  end.

(** The [for transformation in self.__transformations] loop of
    [Pipeline.transform], over the [transform] of the stages. *)
Fixpoint transform_loop (transform : loc -> PyObject -> Result PyObject)
    (transformations : list loc) (dataset : PyObject) : Result PyObject :=
  match transformations with
  | [] => Ok dataset
  | transformation :: rest =>
      dataset' ← transform transformation dataset;
      transform_loop transform rest dataset'
  end.

(** [self.transform(dataset)], dispatched on the class of [self]; [depth]
    bounds the nesting of calls, as the interpreter's recursion limit does.
    An object without a [transform] method raises [AttributeError]. *)
Fixpoint transform (depth : nat) (h : Heap) (self : loc) (dataset : PyObject)
  : Result PyObject :=
  match depth with
  | 0 => Raise RecursionError
  | S depth' =>
      match h !! self with
      | Some AddTotalsRowTransformer => Ok dataset
      | Some (ColumnsSelectorTransformer _) => Ok Ellipsis
      | Some (FunctionTransformer transformer) => transformer dataset
      | Some (Pipeline transformations) =>
          transform_loop (transform depth' h) transformations dataset
      | _ => Raise AttributeError
      end
  end.

(** The stages of a pipeline object. *)
Definition stages (h : Heap) (p : loc) : option (list loc) :=
  match h !! p with
  | Some (Pipeline ts) => Some ts
  | _ => None
  end.

(** [lambda ds: ds * 10]: no value of the example supports the product
    (the class [Dataset] defines no [__mul__]). *)
Definition times_10 (ds : PyObject) : Result PyObject := Raise TypeError.

(** The heap and the call of [main]:
    [Pipeline(ColumnsSelectorTransformer(("salary", "bonus")),
              FunctionTransformer(lambda ds: ds * 10))]. *)
Definition main_heap : Heap :=
  [ColumnsSelectorTransformer ["salary"; "bonus"];
   FunctionTransformer times_10].

Definition main_rewards_pipeline : Result (loc * Heap) :=
  Pipeline_init main_heap [0; 1].

(** A transformer that is not itself a pipeline. *)
Definition is_leaf (h : Heap) (s : loc) : bool :=
  match h !! s with
  | Some AddTotalsRowTransformer
  | Some (ColumnsSelectorTransformer _)
  | Some (FunctionTransformer _) => true
  | _ => false
  end.

(** *** A record of the calls *)

(** The loop of [Pipeline.transform], with the objects whose [transform]
    was entered, in the order of the calls: a stage is called when the
    stages before it have returned. *)
Fixpoint transform_loop_traced
    (transform : loc -> PyObject -> list loc * Result PyObject)
    (transformations : list loc) (dataset : PyObject)
  : list loc * Result PyObject :=
  match transformations with
  | [] => ([], Ok dataset)
  | transformation :: rest =>
      let '(calls, r) := transform transformation dataset in
      match r with
      | Ok dataset' =>
          let '(calls', r') := transform_loop_traced transform rest dataset' in
          (calls ++ calls', r')
      | Raise e => (calls, Raise e)
      end
  end.

(** [transform], with the objects whose [transform] was entered.  A call
    that exceeds the depth or finds no [transform] method enters none. *)
Fixpoint transform_traced (depth : nat) (h : Heap) (self : loc)
    (dataset : PyObject) : list loc * Result PyObject :=
  match depth with
  | 0 => ([], Raise RecursionError)
  | S depth' =>
      match h !! self with
      | Some AddTotalsRowTransformer => ([self], Ok dataset)
      | Some (ColumnsSelectorTransformer _) => ([self], Ok Ellipsis)
      | Some (FunctionTransformer transformer) => ([self], transformer dataset)
      | Some (Pipeline transformations) =>
          let '(calls, r) :=
            transform_loop_traced (transform_traced depth' h)
              transformations dataset in
          (self :: calls, r)
      | _ => ([], Raise AttributeError)
      end
  end.

End Composite_pipelining.

(** ** Decorator_pipelining.py *)

Module Decorator_pipelining.

(** The subclasses of [DatasetTransformerStepBase], with the state each
    one adds. *)
Inductive StepClass :=
| ColumnsSelectorTransformer (columns_to_keep : list string)
| FunctionTransformer (transformer : PyObject -> Result PyObject)
| AddTotalsRowTransformer.

(** The objects of the example.  A step owns the reference [next_step];
    a pipeline owns the list [transformers] of references to its steps. *)
Inductive Obj :=
| Dataset
| IdentityTransformer
| DatasetTransformerStepBase (cls : StepClass) (next_step : loc)
| Pipeline (transformers : list loc).

Abbreviation Heap := (list Obj) (only parsing).

Definition alloc (h : Heap) (o : Obj) : loc * Heap := (length h, h ++ [o]).

(** [DatasetTransformerStepBase.__init__]:
    [self.__next_step = next_step or IdentityTransformer()]. *)
Definition DatasetTransformerStepBase_init (h : Heap) (cls : StepClass)
    (next_step : option loc) : loc * Heap :=
  match next_step with
  | Some n => alloc h (DatasetTransformerStepBase cls n)
  | None =>
      let '(sink, h1) := alloc h IdentityTransformer in
      alloc h1 (DatasetTransformerStepBase cls sink)
  end.

(** [DatasetTransformerStepBase.set_next_step]; only a step has the
    method. *)
Definition set_next_step (h : Heap) (self next_step : loc) : Result Heap :=
  match h !! self with
  | Some (DatasetTransformerStepBase cls _) =>
      Ok (<[self := DatasetTransformerStepBase cls next_step]> h)
  | _ => Raise AttributeError
  end.

(** [Pipeline.append]: the body ends without a [return] statement, so the
    call evaluates to [None]. *)
Definition Pipeline_append (h : Heap) (self transformer : loc)
  : Result (PyObject * Heap) :=
  let '(sink, h1) := alloc h IdentityTransformer in
  h2 ← set_next_step h1 transformer sink;
  match h2 !! self with
  | Some (Pipeline transformers) =>
      h3 ← (if bool_decide (0 < length transformers)
            then match last transformers with
                 | Some previous => set_next_step h2 previous transformer
                 | None => Raise IndexError
                 end
            else Ok h2);
      mret (None_, <[self := Pipeline (transformers ++ [transformer])]> h3)
  | _ => Raise AttributeError
  end.

(** [receiver.append(transformer)] where the receiver is the value of an
    expression: [None] and [...] have no [append] attribute. *)
Definition append (h : Heap) (receiver : PyObject) (transformer : loc)
  : Result (PyObject * Heap) :=
  match receiver with
  | Ref self => Pipeline_append h self transformer
  | _ => Raise AttributeError
  end.

(** The [for transformer in transfomers: self.append(transformer)] loop
    of the constructor. *)
Fixpoint append_all (h : Heap) (self : loc) (transfomers : list loc)
  : Result Heap :=
  match transfomers with
  | [] => Ok h
  | transformer :: rest =>
      r ← Pipeline_append h self transformer;
      append_all r.2 self rest
  end.

(** [Pipeline.__init__]. *)
Definition Pipeline_init (h : Heap) (transfomers : list loc)
  : Result (loc * Heap) :=
  let '(self, h0) := alloc h (Pipeline []) in
  h' ← append_all h0 self transfomers;
  mret (self, h').

(** What a step does to the dataset before it delegates to its next
    step. *)
Definition step_logic (cls : StepClass) (dataset : PyObject) : Result PyObject :=
  match cls with
  | ColumnsSelectorTransformer _ => Ok Ellipsis
  | FunctionTransformer transformer => transformer dataset
  | AddTotalsRowTransformer => Ok dataset
  end.

(** [self.transform(dataset)], dispatched on the class of [self].  A step
    runs its own logic and calls [super().transform], which delegates to
    [next_step]; a pipeline delegates to [self.transformers[0]].  [depth]
    bounds the nesting of calls, as the interpreter's recursion limit
    does. *)
Fixpoint transform (depth : nat) (h : Heap) (self : loc) (dataset : PyObject)
  : Result PyObject :=
  match depth with
  | 0 => Raise RecursionError
  | S depth' =>
      match h !! self with
      | Some IdentityTransformer => Ok dataset
      | Some (DatasetTransformerStepBase cls next_step) =>
          new_dataset ← step_logic cls dataset;
          transform depth' h next_step new_dataset
      | Some (Pipeline transformers) =>
          match transformers !! 0 with
          | Some first => transform depth' h first dataset
          | None => Raise IndexError
          end
      | _ => Raise AttributeError
      end
  end.

(** *** Observations on a heap *)

Definition next_step_of (h : Heap) (s : loc) : option loc :=
  match h !! s with
  | Some (DatasetTransformerStepBase _ n) => Some n
  | _ => None
  end.

Definition is_step (h : Heap) (s : loc) : bool :=
  match h !! s with
  | Some (DatasetTransformerStepBase _ _) => true
  | _ => false
  end.

Definition is_identity (h : Heap) (l : loc) : bool :=
  match h !! l with
  | Some IdentityTransformer => true
  | _ => false
  end.

Definition stages (h : Heap) (p : loc) : option (list loc) :=
  match h !! p with
  | Some (Pipeline ts) => Some ts
  | _ => None
  end.

(** The next reference of [s] is an [IdentityTransformer]. *)
Definition terminal_closed_at (h : Heap) (s : loc) : bool :=
  match next_step_of h s with
  | Some t => is_identity h t
  | None => false
  end.

(** The steps [ts] are linked one to the next, and the last one to an
    [IdentityTransformer]. *)
Fixpoint linked (h : Heap) (ts : list loc) : Prop :=
  match ts with
  | [] => True
  | s :: rest =>
      match rest with
      | [] => terminal_closed_at h s = true
      | s' :: _ => next_step_of h s = Some s'
      end /\ linked h rest
  end.

(** What [append(transformer)] is expected to establish on the pipeline
    [self]: the call returns; the next reference of [transformer] is an
    [IdentityTransformer] that did not exist before the call; the stage
    that was last, if there is one, now refers to [transformer]; the
    pipeline holds its former stages and then [transformer]; and no stage
    dangles: every stage the pipeline holds refers to the stage held after
    it, and the last one to the sink. *)
Definition append_closes_chain (h : Heap) (self transformer : loc) : Prop :=
  exists r h' sink ts,
    Pipeline_append h self transformer = Ok (r, h')
    /\ stages h self = Some ts
    /\ h !! sink = None
    /\ is_identity h' sink = true
    /\ next_step_of h' transformer = Some sink
    /\ (forall previous, last ts = Some previous ->
          next_step_of h' previous = Some transformer)
    /\ stages h' self = Some (ts ++ [transformer])
    /\ linked h' (ts ++ [transformer]).

(** The pipeline [p] holds the steps [ts], no step twice, linked one to
    the next and closed by an [IdentityTransformer]. *)
Definition well_wired (h : Heap) (p : loc) (ts : list loc) : Prop :=
  stages h p = Some ts
  /\ NoDup ts
  /\ Forall (fun s => is_step h s = true) ts
  /\ linked h ts.

(** The class of a step, with the state the subclass adds. *)
Definition class_of (h : Heap) (s : loc) : option StepClass :=
  match h !! s with
  | Some (DatasetTransformerStepBase cls _) => Some cls
  | _ => None
  end.

(** The logic of the steps [ts], applied in order. *)
Fixpoint steps_logic (h : Heap) (ts : list loc) (dataset : PyObject)
  : Result PyObject :=
  match ts with
  | [] => Ok dataset
  | s :: rest =>
      match class_of h s with
      | Some cls =>
          new_dataset ← step_logic cls dataset;
          steps_logic h rest new_dataset
      | None => Raise AttributeError
      end
  end.

(** The heap after [p = Pipeline(); s = AddTotalsRowTransformer()]: the
    pipeline is at 0, the step at 2 and its default sink at 1. *)
Definition fresh_stage_heap : Heap :=
  (DatasetTransformerStepBase_init [Pipeline []] AddTotalsRowTransformer None).2.

(** [p.append(s)] on that heap. *)
Definition first_append : Result (PyObject * Heap) :=
  Pipeline_append fresh_stage_heap 0 2.

(** The heap [p.append(s)] leaves: [p] holds [s], and [s] refers to the
    sink at 3. *)
Definition one_stage_heap : Heap :=
  [Pipeline [2]; IdentityTransformer;
   DatasetTransformerStepBase AddTotalsRowTransformer 3; IdentityTransformer].

(** [s2 = ColumnsSelectorTransformer(("salary",)); p.append(s2)] on
    [one_stage_heap]: the new step is at 5, its default sink at 4. *)
Definition second_append : Result (PyObject * Heap) :=
  Pipeline_append
    (DatasetTransformerStepBase_init one_stage_heap
       (ColumnsSelectorTransformer ["salary"]) None).2
    0 5.

(** The heap that call leaves: [p] holds the steps 2 and 5, 2 refers to
    5 and 5 to the sink at 6. *)
Definition two_stage_heap : Heap :=
  [Pipeline [2; 5]; IdentityTransformer;
   DatasetTransformerStepBase AddTotalsRowTransformer 5; IdentityTransformer;
   IdentityTransformer;
   DatasetTransformerStepBase (ColumnsSelectorTransformer ["salary"]) 6;
   IdentityTransformer].

(** The logic of steps of the classes [cs], applied in order. *)
Fixpoint classes_logic (cs : list StepClass) (dataset : PyObject)
  : Result PyObject :=
  match cs with
  | [] => Ok dataset
  | c :: rest =>
      new_dataset ← step_logic c dataset;
      classes_logic rest new_dataset
  end.

End Decorator_pipelining.

(** The transformer of [Composite_pipelining.py] that has the name and the
    state of a step class of [Decorator_pipelining.py]. *)
Definition class_object (c : Decorator_pipelining.StepClass)
  : Composite_pipelining.Obj :=
  match c with
  | Decorator_pipelining.ColumnsSelectorTransformer columns_to_keep =>
      Composite_pipelining.ColumnsSelectorTransformer columns_to_keep
  | Decorator_pipelining.FunctionTransformer transformer =>
      Composite_pipelining.FunctionTransformer transformer
  | Decorator_pipelining.AddTotalsRowTransformer =>
      Composite_pipelining.AddTotalsRowTransformer
  end.

(** ** Composite_side_effects.py *)

Module Composite_side_effects.

(** [class LogLevel(IntEnum)], with the [value] and the [name] of each
    member. *)
Inductive LogLevel := DEBUG | INFO | WARN | ERROR.

Definition value (l : LogLevel) : nat :=
  match l with DEBUG => 1 | INFO => 2 | WARN => 3 | ERROR => 4 end.

Definition name (l : LogLevel) : string :=
  match l with
  | DEBUG => "DEBUG" | INFO => "INFO" | WARN => "WARN" | ERROR => "ERROR"
  end.

(** What the loggers write to: the standard output and the file
    [log.txt], which [open] in append mode is taken to open. *)
Record World := {
  stdout : string;
  log_txt : string
}.

(** The line feed. *)
Definition newline : string := String (Ascii.ascii_of_nat 10) EmptyString.

(** [print(text)]: the text and a newline. *)
Definition print (text : string) (w : World) : World :=
  {| stdout := stdout w +:+ text +:+ newline;
     log_txt := log_txt w |}.

(** [with open("log.txt", "a") as log_file: log_file.write(text)]. *)
Definition write_log_txt (text : string) (w : World) : World :=
  {| stdout := stdout w; log_txt := log_txt w +:+ text |}.

(** The f-string of the loggers. *)
Definition formatted (message : string) (log_level : LogLevel) : string :=
  "[" +:+ name log_level +:+ "] " +:+ message.

(** [BadGodLogger.log] *)
Definition BadGodLogger_log (message : string) (log_level : LogLevel)
    (w : World) : World :=
  let formatted_message := formatted message log_level in
  write_log_txt formatted_message (print formatted_message w).

(** The implementations of [ILogger]; a [ForEachLogger] holds the tuple
    of its loggers, a [HotColdLogger] its two paths. *)
Unset Elimination Schemes.
Inductive ILogger :=
| StdoutLogger
| FileLogger
| DatabaseLogger
| ForEachLogger (loggers : list ILogger)
| HotColdLogger (hot_path_logger cold_path_logger : ILogger).
Set Elimination Schemes.

(** [logger.log(message, log_level)], dispatched on the class. *)
Fixpoint log (self : ILogger) (message : string) (log_level : LogLevel)
    (w : World) : World :=
  match self with
  | StdoutLogger => print (formatted message log_level) w
  | FileLogger => write_log_txt (formatted message log_level) w
  | DatabaseLogger => w
  | ForEachLogger loggers =>
      fold_left (fun w' logger => log logger message log_level w') loggers w
  | HotColdLogger hot_path_logger cold_path_logger =>
      if bool_decide (value WARN <= value log_level)
      then log hot_path_logger message log_level w
      else log cold_path_logger message log_level w
  end.

(** The [loggers] list of [improved_main], used as its loops use it. *)
Definition improved_main_loggers : list ILogger := [StdoutLogger; FileLogger].

(** The logger that [good_main] builds. *)
Definition good_main_logger : ILogger :=
  HotColdLogger
    (ForEachLogger [StdoutLogger; FileLogger])
    (ForEachLogger [StdoutLogger; FileLogger; DatabaseLogger]).

(** The world in which nothing was written. *)
Definition nothing_written : World := {| stdout := ""; log_txt := "" |}.

(** [w] followed by what [w'] holds. *)
Definition followed_by (w w' : World) : World :=
  {| stdout := stdout w +:+ stdout w'; log_txt := log_txt w +:+ log_txt w' |}.

End Composite_side_effects.

(** ** Decorator_Http.py *)

Module Decorator_Http.

(** A request carries nothing; it is known by its identity. *)
Abbreviation HttpRequest := loc (only parsing).

(** [class HttpResponse] *)
Record HttpResponse := { status_code : Z }.

(** A call of [handle] returns a response or raises; an exception is
    known by its description. *)
Inductive Outcome :=
| Returns (response : HttpResponse)
| Raises (exception : string).

(** The implementations of [IHttpRequestHandler] of the file, and
    [OtherHandler] for any other implementation: given the request and
    the content of [log.txt], it leaves a content and an outcome. *)
Inductive IHttpRequestHandler :=
| OkHttpRequestHandler
| LoggingOkHttpRequestHandler
| ExceptionHandlingLoggingOkHttpRequestHandler
| LoggerHttpRequestHandlerDecorator (inner_implementation : IHttpRequestHandler)
| ExceptionHandlingHttpRequestHandlerDecorator
    (inner_implementation : IHttpRequestHandler)
| OtherHandler (implementation : HttpRequest -> string -> string * Outcome).

(** The body of a [with open("log.txt", "a") as log_file] block that
    writes "begin", runs [inner] and writes "end".  The file is opened in
    append mode and is taken to open.  The writes of the block are
    buffered: they reach the file when the block is left, after what
    [inner] itself appended, and "end" is among them only when [inner]
    returned. *)
Definition logged (inner : string -> string * Outcome) (log_txt : string)
  : string * Outcome :=
  let '(log_txt', outcome) := inner log_txt in
  (log_txt' +:+ "Http request handler begin"
     +:+ match outcome with
         | Returns _ => "Http request handler end"
         | Raises _ => ""
         end,
   outcome).

(** [try: return ... except: return HttpResponse(500)]. *)
Definition guarded (inner : string -> string * Outcome) (log_txt : string)
  : string * Outcome :=
  let '(log_txt', outcome) := inner log_txt in
  (log_txt',
   match outcome with
   | Returns response => Returns response
   | Raises _ => Returns {| status_code := 500%Z |}
   end).

(** [OkHttpRequestHandler.handle] *)
Definition Ok_handle (request : HttpRequest) (log_txt : string)
  : string * Outcome :=
  (log_txt, Returns {| status_code := 200%Z |}).

(** [LoggingOkHttpRequestHandler.handle]: [super()] is
    [OkHttpRequestHandler]. *)
Definition LoggingOk_handle (request : HttpRequest) : string -> string * Outcome :=
  logged (Ok_handle request).

(** [ExceptionHandlingLoggingOkHttpRequestHandler.handle]: [super()] is
    [LoggingOkHttpRequestHandler]. *)
Definition ExceptionHandlingLoggingOk_handle (request : HttpRequest)
  : string -> string * Outcome :=
  guarded (LoggingOk_handle request).

(** [handler.handle(request)], dispatched on the class. *)
Fixpoint handle (self : IHttpRequestHandler) (request : HttpRequest)
    (log_txt : string) : string * Outcome :=
  match self with
  | OkHttpRequestHandler => Ok_handle request log_txt
  | LoggingOkHttpRequestHandler => LoggingOk_handle request log_txt
  | ExceptionHandlingLoggingOkHttpRequestHandler =>
      ExceptionHandlingLoggingOk_handle request log_txt
  | LoggerHttpRequestHandlerDecorator inner_implementation =>
      logged (handle inner_implementation request) log_txt
  | ExceptionHandlingHttpRequestHandlerDecorator inner_implementation =>
      guarded (handle inner_implementation request) log_txt
  | OtherHandler implementation => implementation request log_txt
  end.

(** [my_handler] of [main]. *)
Definition my_handler : IHttpRequestHandler :=
  ExceptionHandlingHttpRequestHandlerDecorator
    (LoggerHttpRequestHandlerDecorator OkHttpRequestHandler).

(** [outer] is [inner] under any number of the two decorators. *)
Inductive decorates (inner : IHttpRequestHandler) : IHttpRequestHandler -> Prop :=
| decorates_refl : decorates inner inner
| decorates_logger outer :
    decorates inner outer ->
    decorates inner (LoggerHttpRequestHandlerDecorator outer)
| decorates_exception_handling outer :
    decorates inner outer ->
    decorates inner (ExceptionHandlingHttpRequestHandlerDecorator outer).

End Decorator_Http.

(** * Properties *)

(** ** The chain of exception handlers *)

Module ChainFacts.
Import ChainOfResponsibility.

Section Loop.
Implicit Types (handlers pre post : list IExceptionHandler).
Implicit Types (ctx : ExceptionHandlingContext) (i : nat).

(** When every handler declines, the loop runs them all and is left
    without [break]. *)
Lemma for_handlers_exhausted handlers : forall i ctx,
  all_decline handlers ctx = true ->
  for_handlers i handlers ctx
  = (context_after handlers ctx, calls_of i handlers ctx, false).
Proof.
  induction handlers as [|h rest IH]; intros i ctx Hdecl; simpl in *.
  - reflexivity.
  - apply andb_true_iff in Hdecl as [Hh Hrest].
    apply negb_true_iff in Hh.
    destruct (handle h ctx) as [ctx1 calls] eqn:Hrun; simpl in *.
    rewrite Hh, (IH (S i) ctx1 Hrest). reflexivity.
Qed.

(** When the handlers of [pre] decline and [h] claims the work, the loop
    stops after [h]: nothing of [post] runs. *)
Lemma for_handlers_break pre h post : forall i ctx,
  all_decline pre ctx = true ->
  is_handled (handle h (context_after pre ctx)).1 = true ->
  for_handlers i (pre ++ h :: post) ctx
  = ((handle h (context_after pre ctx)).1,
     calls_of i pre ctx
       ++ [(i + length pre, (handle h (context_after pre ctx)).2)],
     true).
Proof.
  induction pre as [|h0 pre IH]; intros i ctx Hdecl Hclaim; simpl in *.
  - destruct (handle h ctx) as [ctx1 calls]; simpl in *.
    rewrite Hclaim, Nat.add_0_r. reflexivity.
  - apply andb_true_iff in Hdecl as [Hh Hrest].
    apply negb_true_iff in Hh.
    destruct (handle h0 ctx) as [ctx1 calls] eqn:Hrun; simpl in *.
    rewrite Hh, (IH (S i) ctx1 Hrest Hclaim).
    replace (S i + length pre) with (i + S (length pre)) by lia.
    reflexivity.
Qed.

Lemma calls_of_positions handlers : forall i ctx,
  map fst (calls_of i handlers ctx) = seq i (length handlers).
Proof.
  induction handlers as [|h rest IH]; intros i ctx; simpl.
  - reflexivity.
  - f_equal. apply IH.
Qed.

(** A handler that never sets the flag on an unhandled context declines
    wherever it stands. *)
Lemma all_decline_intro handlers ctx :
  is_handled ctx = false ->
  Forall (fun h => forall c, is_handled c = false ->
                            is_handled (handle h c).1 = false) handlers ->
  all_decline handlers ctx = true.
Proof.
  intros Hctx Hall. revert ctx Hctx.
  induction Hall as [|h rest Hh _ IH]; intros ctx Hctx; simpl.
  - reflexivity.
  - rewrite (Hh ctx Hctx). simpl. apply IH, Hh, Hctx.
Qed.

(** A loop that ends with an [UnexpectedExceptionHandler] is always left
    by [break]. *)
Lemma for_handlers_ends_with_unexpected handlers gs logger : forall i ctx,
  (for_handlers i (handlers ++ [UnexpectedExceptionHandler gs logger]) ctx).2
  = true.
Proof.
  induction handlers as [|h rest IH]; intros i ctx; simpl.
  - reflexivity.
  - destruct (handle h ctx) as [ctx1 calls].
    destruct (is_handled ctx1); [reflexivity|].
    specialize (IH (S i) ctx1).
    destruct (for_handlers _ _ _) as [[ctx2 inv] broke]. exact IH.
Qed.
End Loop.

(** C2. When every handler of the configured sequence leaves [is_handled]
    false, [handle_exception] calls every handler, in order, and then calls
    [shutdown] on its own [graceful_shutdown] exactly once: that call is
    the whole fallback, and the last call of the trace. *)
Theorem exhaustion_invokes_fallback_once
    (self : ChainExceptionHandler) (ex : BaseException) :
  let ctx0 := {| exception := ex; is_handled := false |} in
  all_decline (exception_handlers self) ctx0 = true ->
  let out := handle_exception self ex in
  fallback out = [Call_shutdown (graceful_shutdown self)]
  /\ invoked_positions out = seq 0 (length (exception_handlers self))
  /\ trace out
     = concat (map snd (calls_of 0 (exception_handlers self) ctx0))
         ++ [Call_shutdown (graceful_shutdown self)].
Proof.
  intros ctx0 Hdecl out. subst out. unfold handle_exception, trace, invoked_positions.
  fold ctx0. rewrite (for_handlers_exhausted _ 0 ctx0 Hdecl). simpl.
  rewrite calls_of_positions. auto.
Qed.

Lemma exhaustion_invokes_fallback_once_witness :
  let self :=
    {| graceful_shutdown := 7;
       exception_handlers :=
         [ModuleNotFoundErrorHandler (PluginLoader 9) 8;
          KeyboardInterruptHandler 7;
          NotImplementedErrorHandler 7 8] |} in
  let ex := {| cls := ModuleNotFoundError; str := "no name"; name := None |} in
  fallback (handle_exception self ex) = [Call_shutdown 7]
  /\ invoked_positions (handle_exception self ex) = [0; 1; 2].
Proof.
  intros self ex.
  destruct (exhaustion_invokes_fallback_once self ex) as (Hf & Hp & _).
  - reflexivity.
  - split; [exact Hf | exact Hp].
Defined.

(** C3. When the handlers before [h] decline and [h] is the first to set
    [is_handled], the handlers invoked are exactly those up to [h]: no
    handler at a later position is invoked, the calls made are those of
    the handlers up to [h], and the fallback is not invoked. *)
Theorem short_circuit_at_first_claim
    (gs : loc) (pre : list IExceptionHandler) (h : IExceptionHandler)
    (post : list IExceptionHandler) (ex : BaseException) :
  let ctx0 := {| exception := ex; is_handled := false |} in
  all_decline pre ctx0 = true ->
  is_handled (handle h (context_after pre ctx0)).1 = true ->
  let out :=
    handle_exception
      {| graceful_shutdown := gs; exception_handlers := pre ++ h :: post |} ex in
  invoked_positions out = seq 0 (S (length pre))
  /\ (forall j, length pre < j -> j ∉ invoked_positions out)
  /\ fallback out = []
  /\ trace out
     = concat (map snd (calls_of 0 pre ctx0))
         ++ (handle h (context_after pre ctx0)).2.
Proof.
  intros ctx0 Hdecl Hclaim out. subst out.
  unfold handle_exception, trace, invoked_positions. simpl. fold ctx0.
  rewrite (for_handlers_break pre h post 0 ctx0 Hdecl Hclaim). simpl.
  assert (Hpos : map fst (calls_of 0 pre ctx0
                            ++ [(length pre, (handle h (context_after pre ctx0)).2)])
                 = seq 0 (S (length pre))).
  { rewrite map_app, calls_of_positions, seq_S. reflexivity. }
  repeat split.
  - exact Hpos.
  - intros j Hj Hin. rewrite Hpos in Hin.
    apply list_elem_of_In, in_seq in Hin. lia.
  - rewrite map_app, concat_app. simpl. rewrite !app_nil_r. reflexivity.
Qed.

Lemma short_circuit_at_first_claim_witness :
  let out :=
    handle_exception (good_main_handler 7 8 (PluginLoader 9))
      {| cls := KeyboardInterrupt; str := "^C"; name := None |} in
  invoked_positions out = [0; 1] /\ fallback out = [].
Proof.
  intros out.
  destruct (short_circuit_at_first_claim 7
              [ModuleNotFoundErrorHandler (PluginLoader 9) 8]
              (KeyboardInterruptHandler 7)
              [NotImplementedErrorHandler 7 8; UnexpectedExceptionHandler 7 8]
              {| cls := KeyboardInterrupt; str := "^C"; name := None |})
    as (Hp & _ & Hf & _).
  - reflexivity.
  - reflexivity.
  - split; [exact Hp | exact Hf].
Defined.

(** C8. The chain of [good_main] on a [ModuleNotFoundError] whose [name] is
    [None]: the first handler logs an error and leaves the context
    unhandled, the next two make no call, [UnexpectedExceptionHandler] logs,
    shuts down and sets [is_handled]; the fallback is not invoked and one
    log entry starts with "Unexpected exception". *)
Theorem module_not_found_without_name_scenario
    (gs logger : loc) (plugin_loader : IPluginLoader) (msg : string) :
  let ex := {| cls := ModuleNotFoundError; str := msg; name := None |} in
  let ctx0 := {| exception := ex; is_handled := false |} in
  let out := handle_exception (good_main_handler gs logger plugin_loader) ex in
  handle (ModuleNotFoundErrorHandler plugin_loader logger) ctx0
  = (ctx0, [Call_log logger ("ModuleNotFoundError without module name: " +:+ msg) ERROR])
  /\ invoked out
     = [(0, [Call_log logger ("ModuleNotFoundError without module name: " +:+ msg) ERROR]);
        (1, []);
        (2, []);
        (3, [Call_log logger ("Unexpected exception: " +:+ msg) ERROR;
             Call_shutdown gs])]
  /\ all_decline
       [ModuleNotFoundErrorHandler plugin_loader logger;
        KeyboardInterruptHandler gs;
        NotImplementedErrorHandler gs logger] ctx0 = true
  /\ context out = {| exception := ex; is_handled := true |}
  /\ fallback out = []
  /\ log_entries_with_prefix "Unexpected exception" (trace out) = 1.
Proof.
  intros ex ctx0 out. repeat split; reflexivity.
Qed.

(** C9. [UnexpectedExceptionHandler.handle] logs, shuts down and sets
    [is_handled] on every context; hence a chain whose last handler is an
    [UnexpectedExceptionHandler] never takes the fallback branch. *)
Theorem unexpected_handler_makes_fallback_unreachable :
  (forall (gs logger : loc) (ctx : ExceptionHandlingContext),
     handle (UnexpectedExceptionHandler gs logger) ctx
     = ({| exception := exception ctx; is_handled := true |},
        [Call_log logger ("Unexpected exception: " +:+ str (exception ctx)) ERROR;
         Call_shutdown gs]))
  /\ (forall (fallback_gs gs logger : loc) (handlers : list IExceptionHandler)
            (ex : BaseException),
        fallback
          (handle_exception
             {| graceful_shutdown := fallback_gs;
                exception_handlers :=
                  handlers ++ [UnexpectedExceptionHandler gs logger] |} ex)
        = []).
Proof.
  split.
  - reflexivity.
  - intros fallback_gs gs logger handlers ex. unfold handle_exception. simpl.
    pose proof (for_handlers_ends_with_unexpected handlers gs logger 0
                  {| exception := ex; is_handled := false |}) as Hbreak.
    destruct (for_handlers _ _ _) as [[ctx inv] broke].
    simpl in Hbreak. subst broke. reflexivity.
Qed.

(** C10. With no handler configured, [handle_exception] returns after one
    call of [shutdown] on its [graceful_shutdown], made by the fallback
    branch; the context it created is left unhandled. *)
Theorem empty_chain_shuts_down_once (gs : loc) (ex : BaseException) :
  handle_exception {| graceful_shutdown := gs; exception_handlers := [] |} ex
  = {| context := {| exception := ex; is_handled := false |};
       invoked := [];
       fallback := [Call_shutdown gs] |}
  /\ trace
       (handle_exception {| graceful_shutdown := gs; exception_handlers := [] |} ex)
     = [Call_shutdown gs].
Proof. split; reflexivity. Qed.

End ChainFacts.

(** ** The aggregating pipeline *)

Module CompositeFacts.
Import Composite_pipelining.

(** [transform] of a pipeline is the loop over its stages. *)
Lemma transform_pipeline (depth : nat) (h : list Obj) (p : loc)
    (ts : list loc) (x : PyObject) :
  stages h p = Some ts ->
  transform (S depth) h p x = transform_loop (transform depth h) ts x.
Proof.
  unfold stages. intros Hp. simpl.
  destruct (h !! p) as [[]|]; try discriminate.
  injection Hp as ->. reflexivity.
Qed.

(** The loop is the left fold of the stages' [transform] over the input;
    a stage that raises ends it. *)
Lemma transform_loop_fold (f : loc -> PyObject -> Result PyObject)
    (ts : list loc) (x : PyObject) :
  transform_loop f ts x = fold_left (fun acc t => acc ≫= f t) ts (Ok x).
Proof.
  revert x. induction ts as [|t rest IH]; intros x; simpl.
  - reflexivity.
  - destruct (f t x) as [y|e]; simpl.
    + apply IH.
    + clear IH. induction rest as [|t' rest' IH']; simpl; auto.
Qed.

Lemma transform_loop_app (f : loc -> PyObject -> Result PyObject)
    (ts1 ts2 : list loc) (x : PyObject) :
  transform_loop f (ts1 ++ ts2) x
  = transform_loop f ts1 x ≫= transform_loop f ts2.
Proof.
  revert x. induction ts1 as [|t rest IH]; intros x; simpl.
  - reflexivity.
  - destruct (f t x) as [y|e]; simpl; [apply IH | reflexivity].
Qed.

(** [append] returns [self], and [self] then holds the new stage last. *)
Lemma Pipeline_append_returns_self (h : list Obj) (self transformer : loc)
    (ts : list loc) :
  stages h self = Some ts ->
  exists h',
    Pipeline_append h self transformer = Ok (Ref self, h')
    /\ stages h' self = Some (ts ++ [transformer]).
Proof.
  unfold stages, Pipeline_append. intros Hp.
  destruct (h !! self) as [[]|] eqn:Hself; try discriminate.
  injection Hp as ->. eexists. split; [reflexivity|].
  rewrite list_lookup_insert_eq; [reflexivity|].
  eapply lookup_lt_Some, Hself.
Qed.

(** Appends chain: [p.append(s1).append(s2)] returns [p], which then
    holds [s1] and [s2] behind its former stages. *)
Lemma Pipeline_append_fluent (h : list Obj) (p s1 s2 : loc) (ts : list loc) :
  stages h p = Some ts ->
  exists h',
    (Pipeline_append h p s1 ≫= fun r => append r.2 r.1 s2) = Ok (Ref p, h')
    /\ stages h' p = Some (ts ++ [s1; s2]).
Proof.
  intros Hp.
  destruct (Pipeline_append_returns_self h p s1 ts Hp) as (h1 & Happ1 & Hp1).
  destruct (Pipeline_append_returns_self h1 p s2 _ Hp1) as (h2 & Happ2 & Hp2).
  exists h2. rewrite Happ1. simpl. rewrite Happ2, Hp2, <- app_assoc.
  split; reflexivity.
Qed.

(** A single argument that is a tuple of stages is iterated. *)
Lemma Pipeline_init_tuple (h : list Obj) (x : loc) (items : list loc) :
  h !! x = Some (Tuple items) ->
  Pipeline_init h [x] = Ok (length h, h ++ [Pipeline items]).
Proof.
  intros Hx. unfold Pipeline_init, list_, iter. rewrite Hx. reflexivity.
Qed.

(** A single argument that is a transformer is not iterable. *)
Lemma Pipeline_init_one_stage (h : list Obj) (s : loc) :
  (forall items, h !! s <> Some (Tuple items)) ->
  Pipeline_init h [s] = Raise TypeError.
Proof.
  intros Hs. unfold Pipeline_init, list_, iter.
  destruct (h !! s) as [[]|]; try reflexivity.
  exfalso. eapply Hs. reflexivity.
Qed.

(** C1. The constructor hands its stages to [list] as separate arguments:
    the call of [main] with two stages raises [TypeError], and so does
    every call with two stages or more; no pipeline holding the stages is
    built. *)
Theorem Pipeline_init_raises_on_stages :
  main_rewards_pipeline = Raise TypeError
  /\ forall (h : list Obj) (s1 s2 : loc) (rest : list loc),
       Pipeline_init h (s1 :: s2 :: rest) = Raise TypeError.
Proof. split; reflexivity. Qed.

(** C6. A pipeline without stages returns its input. *)
Theorem empty_pipeline_is_identity (depth : nat) (h : list Obj) (p : loc)
    (x : PyObject) :
  stages h p = Some [] ->
  transform (S depth) h p x = Ok x.
Proof.
  intros Hp. rewrite (transform_pipeline depth h p [] x Hp). reflexivity.
Qed.

Lemma empty_pipeline_is_identity_witness :
  Pipeline_init [Dataset] [] = Ok (1, [Dataset; Pipeline []])
  /\ transform 1 [Dataset; Pipeline []] 1 (Ref 0) = Ok (Ref 0).
Proof.
  split.
  - reflexivity.
  - apply (empty_pipeline_is_identity 0 [Dataset; Pipeline []] 1 (Ref 0)).
    reflexivity.
Defined.

End CompositeFacts.

(** ** The linked chain and its pipeline *)

Module DecoratorFacts.
Import Decorator_pipelining.

(** Rewriting of lookups in a heap that was extended and updated. *)
Ltac heap_lookup :=
  repeat first
    [ rewrite list_lookup_insert_eq by (rewrite ?length_insert, ?length_app; simpl; lia)
    | rewrite list_lookup_insert_ne by (congruence || lia)
    | rewrite lookup_app_l by lia
    | rewrite list_lookup_middle by reflexivity ].

Section Wiring.
Implicit Types (h : list Obj) (self transformer previous : loc).

Lemma set_next_step_step h s cls n t :
  h !! s = Some (DatasetTransformerStepBase cls n) ->
  set_next_step h s t = Ok (<[s := DatasetTransformerStepBase cls t]> h).
Proof. intros Hs. unfold set_next_step. rewrite Hs. reflexivity. Qed.

Lemma is_step_lookup h s :
  is_step h s = true ->
  exists cls n, h !! s = Some (DatasetTransformerStepBase cls n).
Proof.
  unfold is_step. destruct (h !! s) as [[]|]; try discriminate. eauto.
Qed.

Lemma stages_lookup h p ts :
  stages h p = Some ts -> h !! p = Some (Pipeline ts).
Proof.
  unfold stages. destruct (h !! p) as [[]|]; try discriminate.
  intros [= ->]. reflexivity.
Qed.

(** [append] to a pipeline without stages. *)
Lemma Pipeline_append_first h self transformer cls n :
  h !! self = Some (Pipeline []) ->
  h !! transformer = Some (DatasetTransformerStepBase cls n) ->
  Pipeline_append h self transformer
  = Ok (None_,
        <[self := Pipeline [transformer]]>
          (<[transformer := DatasetTransformerStepBase cls (length h)]>
             (h ++ [IdentityTransformer]))).
Proof.
  intros Hself Ht.
  pose proof (lookup_lt_Some _ _ _ Hself) as Hlt_self.
  pose proof (lookup_lt_Some _ _ _ Ht) as Hlt_t.
  assert (transformer <> self) by congruence.
  unfold Pipeline_append, alloc.
  rewrite (set_next_step_step _ _ cls n) by (heap_lookup; exact Ht).
  simpl. heap_lookup. rewrite Hself. simpl. reflexivity.
Qed.

(** [append] to a pipeline whose last stage is another step. *)
Lemma Pipeline_append_next h self transformer previous ts cls n cls' n' :
  h !! self = Some (Pipeline ts) ->
  last ts = Some previous ->
  previous <> transformer ->
  h !! transformer = Some (DatasetTransformerStepBase cls n) ->
  h !! previous = Some (DatasetTransformerStepBase cls' n') ->
  Pipeline_append h self transformer
  = Ok (None_,
        <[self := Pipeline (ts ++ [transformer])]>
          (<[previous := DatasetTransformerStepBase cls' transformer]>
             (<[transformer := DatasetTransformerStepBase cls (length h)]>
                (h ++ [IdentityTransformer])))).
Proof.
  intros Hself Hlast Hne Ht Hprev.
  pose proof (lookup_lt_Some _ _ _ Hself) as Hlt_self.
  pose proof (lookup_lt_Some _ _ _ Ht) as Hlt_t.
  pose proof (lookup_lt_Some _ _ _ Hprev) as Hlt_p.
  assert (transformer <> self) by congruence.
  assert (0 < length ts) by (destruct ts; [discriminate | simpl; lia]).
  unfold Pipeline_append, alloc.
  rewrite (set_next_step_step _ _ cls n) by (heap_lookup; exact Ht).
  simpl. heap_lookup. rewrite Hself. simpl.
  rewrite bool_decide_eq_true_2 by assumption.
  rewrite Hlast.
  rewrite (set_next_step_step _ _ cls' n') by (heap_lookup; exact Hprev).
  reflexivity.
Qed.
(** What [append] changes in the heap: the pipeline gets the new stage,
    the new stage a new sink, the stage that was last the new stage as its
    next step; every other object is left as it was. *)
Lemma Pipeline_append_effect h self transformer ts :
  stages h self = Some ts ->
  is_step h transformer = true ->
  last ts <> Some transformer ->
  (forall previous, last ts = Some previous -> is_step h previous = true) ->
  exists h',
    Pipeline_append h self transformer = Ok (None_, h')
    /\ length h' = S (length h)
    /\ h' !! self = Some (Pipeline (ts ++ [transformer]))
    /\ h' !! length h = Some IdentityTransformer
    /\ next_step_of h' transformer = Some (length h)
    /\ (forall previous, last ts = Some previous ->
          next_step_of h' previous = Some transformer)
    /\ (forall l, l < length h -> class_of h' l = class_of h l)
    /\ (forall l, l < length h -> l <> self -> l <> transformer ->
          last ts <> Some l -> h' !! l = h !! l).
Proof.
  intros Hst Hstep Hne Hprev.
  apply stages_lookup in Hst as Hself.
  apply is_step_lookup in Hstep as (cls & n & Ht).
  pose proof (lookup_lt_Some _ _ _ Hself) as Hlt_self.
  pose proof (lookup_lt_Some _ _ _ Ht) as Hlt_t.
  assert (transformer <> self) by congruence.
  unfold next_step_of, class_of.
  destruct (last ts) as [previous|] eqn:Hlast.
  - destruct (is_step_lookup h previous (Hprev previous eq_refl))
      as (cls' & n' & Hp).
    pose proof (lookup_lt_Some _ _ _ Hp) as Hlt_p.
    assert (previous <> transformer) by congruence.
    assert (previous <> self) by congruence.
    eexists. split.
    { eapply Pipeline_append_next; eassumption. }
    repeat split.
    + rewrite !length_insert, length_app. simpl. lia.
    + heap_lookup. reflexivity.
    + heap_lookup. reflexivity.
    + heap_lookup. reflexivity.
    + intros previous' [= <-]. heap_lookup. reflexivity.
    + intros l Hl.
      destruct (decide (l = self)) as [->|]; [heap_lookup; rewrite Hself; reflexivity|].
      destruct (decide (l = previous)) as [->|]; [heap_lookup; rewrite Hp; reflexivity|].
      destruct (decide (l = transformer)) as [->|]; [heap_lookup; rewrite Ht; reflexivity|].
      heap_lookup. reflexivity.
    + intros l Hl Hls Hlt Hlp.
      assert (l <> previous) by congruence.
      heap_lookup. reflexivity.
  - apply last_None in Hlast as ->.
    eexists. split.
    { eapply Pipeline_append_first; eassumption. }
    repeat split.
    + rewrite !length_insert, length_app. simpl. lia.
    + heap_lookup. reflexivity.
    + heap_lookup. reflexivity.
    + heap_lookup. reflexivity.
    + intros previous' Hl. discriminate Hl.
    + intros l Hl.
      destruct (decide (l = self)) as [->|]; [heap_lookup; rewrite Hself; reflexivity|].
      destruct (decide (l = transformer)) as [->|]; [heap_lookup; rewrite Ht; reflexivity|].
      heap_lookup. reflexivity.
    + intros l Hl Hls Hlt _. heap_lookup. reflexivity.
Qed.
End Wiring.

(** [append] evaluates to [None] whenever it returns. *)
Lemma Pipeline_append_returns_None (h : list Obj) (self transformer : loc)
    (r : PyObject) (h' : list Obj) :
  Pipeline_append h self transformer = Ok (r, h') -> r = None_.
Proof.
  unfold Pipeline_append, alloc.
  destruct (set_next_step _ _ _) as [h2|e]; simpl; [|discriminate].
  destruct (h2 !! self) as [[]|]; try discriminate.
  destruct (if bool_decide _ then _ else _) as [h3|e]; simpl; [|discriminate].
  intros [= <- _]. reflexivity.
Qed.

(** C5. [Pipeline()] builds a pipeline without stages, and [transform] on
    it raises [IndexError], whatever the input. *)
Theorem empty_pipeline_transform_raises (h0 : list Obj) (depth : nat)
    (x : PyObject) :
  Pipeline_init h0 [] = Ok (length h0, h0 ++ [Pipeline []])
  /\ transform (S depth) (h0 ++ [Pipeline []]) (length h0) x = Raise IndexError.
Proof.
  split; [reflexivity|]. simpl. heap_lookup. reflexivity.
Qed.

(** C7. [p.append(s)] of the linked-chain pipeline evaluates to [None], not
    to [p], and [p.append(s).append(s')] raises [AttributeError]. *)
Theorem decorator_append_is_not_fluent :
  first_append = Ok (None_, one_stage_heap)
  /\ first_append <> Ok (Ref 0, one_stage_heap)
  /\ (first_append ≫= fun r => append r.2 r.1 2) = Raise AttributeError.
Proof.
  split; [reflexivity|]. split; [discriminate | reflexivity].
Qed.

(** *** Pipelines built from distinct steps *)

Section Chain.
Implicit Types (h : list Obj) (p s t : loc) (ts : list loc).

Lemma is_step_class_of h s :
  is_step h s = true <-> is_Some (class_of h s).
Proof.
  unfold is_step, class_of.
  destruct (h !! s) as [[]|]; split; intros H;
    try discriminate; try (by eexists); by destruct H.
Qed.

Lemma is_step_lt h s : is_step h s = true -> s < length h.
Proof.
  intros (cls & n & Hs)%is_step_lookup. eapply lookup_lt_Some, Hs.
Qed.

Lemma is_step_preserved h h' s :
  is_step h s = true ->
  (forall l, l < length h -> class_of h' l = class_of h l) ->
  is_step h' s = true.
Proof.
  intros Hs Hcls. apply is_step_class_of.
  rewrite Hcls by (eapply is_step_lt, Hs). apply is_step_class_of, Hs.
Qed.

(** Linking one more step behind the last one. *)
Lemma linked_snoc h h' ts previous t :
  linked h (ts ++ [previous]) ->
  (forall s, s ∈ ts -> next_step_of h' s = next_step_of h s) ->
  next_step_of h' previous = Some t ->
  terminal_closed_at h' t = true ->
  linked h' (ts ++ [previous; t]).
Proof.
  intros Hlinked Hframe Hprev Hclosed.
  induction ts as [|s ts IH]; simpl in *.
  - auto.
  - destruct Hlinked as [Hs Hrest]. split.
    + rewrite Hframe by left. destruct ts; exact Hs.
    + apply IH; [exact Hrest|]. intros s' Hs'. apply Hframe. by right.
Qed.

(** [append] of a step that the pipeline does not hold yet keeps the
    pipeline well wired. *)
Lemma well_wired_append h p ts t :
  well_wired h p ts ->
  is_step h t = true ->
  t ∉ ts ->
  exists h',
    Pipeline_append h p t = Ok (None_, h')
    /\ well_wired h' p (ts ++ [t])
    /\ length h' = S (length h)
    /\ (forall l, l < length h -> class_of h' l = class_of h l).
Proof.
  intros (Hst & Hnodup & Hsteps & Hlinked) Ht Hnotin.
  assert (Hlast : last ts <> Some t).
  { intros Hl. apply Hnotin. eapply last_Some_elem_of, Hl. }
  assert (Hprev : forall previous, last ts = Some previous ->
                                   is_step h previous = true).
  { intros previous Hl. rewrite Forall_forall in Hsteps.
    eapply Hsteps, last_Some_elem_of, Hl. }
  destruct (Pipeline_append_effect h p t ts Hst Ht Hlast Hprev)
    as (h' & Happ & Hlen & Hp' & Hsink & Hnext & Hrelink & Hcls & Hframe).
  exists h'. split; [exact Happ|]. split; [|split; assumption].
  assert (Hclosed : terminal_closed_at h' t = true).
  { unfold terminal_closed_at, is_identity. rewrite Hnext, Hsink. reflexivity. }
  repeat split.
  - unfold stages. rewrite Hp'. reflexivity.
  - apply NoDup_app. repeat split; [exact Hnodup| |apply NoDup_singleton].
    intros x Hx ->%list_elem_of_singleton. contradiction.
  - apply Forall_app. split.
    + eapply Forall_impl; [exact Hsteps|].
      intros s Hs. simpl in Hs. eapply is_step_preserved; eassumption.
    + apply Forall_singleton. eapply is_step_preserved; eassumption.
  - destruct (last ts) as [previous|] eqn:Hl.
    + apply last_Some in Hl as [ts0 ->].
      rewrite <- app_assoc. simpl.
      eapply linked_snoc; [exact Hlinked| |by apply Hrelink|exact Hclosed].
      intros s Hs. unfold next_step_of. rewrite Hframe; [reflexivity|..].
      * rewrite Forall_forall in Hsteps.
        apply is_step_lt, Hsteps, elem_of_app. by left.
      * intros ->. apply stages_lookup in Hst.
        rewrite Forall_forall in Hsteps.
        assert (Hstep : is_step h p = true).
        { apply Hsteps, elem_of_app. by left. }
        unfold is_step in Hstep. rewrite Hst in Hstep. discriminate.
      * intros ->. apply Hnotin, elem_of_app. by left.
      * intros [= ->].
        apply NoDup_app in Hnodup as (_ & Hdisj & _).
        apply (Hdisj s Hs), list_elem_of_singleton. reflexivity.
    + apply last_None in Hl as ->. simpl. auto.
Qed.

(** The loop of the constructor over steps that are pairwise distinct and
    not yet in the pipeline. *)
Lemma append_all_well_wired p new : forall h ts,
  well_wired h p ts ->
  NoDup (ts ++ new) ->
  Forall (fun s => is_step h s = true) new ->
  exists h',
    append_all h p new = Ok h'
    /\ well_wired h' p (ts ++ new)
    /\ (forall l, l < length h -> class_of h' l = class_of h l).
Proof.
  induction new as [|t new IH]; intros h ts Hw Hnodup Hsteps; simpl.
  - exists h. rewrite app_nil_r. auto.
  - apply Forall_cons in Hsteps as [Ht Hsteps].
    assert (Hnotin : t ∉ ts).
    { apply NoDup_app in Hnodup as (_ & Hdisj & _).
      intros Hin. apply (Hdisj t Hin). by left. }
    destruct (well_wired_append h p ts t Hw Ht Hnotin)
      as (h1 & Happ & Hw1 & Hlen1 & Hcls1).
    rewrite Happ. simpl.
    destruct (IH h1 (ts ++ [t])) as (h' & Hall & Hw' & Hcls').
    + exact Hw1.
    + rewrite <- app_assoc. exact Hnodup.
    + eapply Forall_impl; [exact Hsteps|].
      intros s Hs. simpl in Hs. eapply is_step_preserved; eassumption.
    + exists h'. rewrite <- app_assoc in Hw'.
      split; [exact Hall|]. split; [exact Hw'|].
      intros l Hl. rewrite Hcls' by lia. apply Hcls1, Hl.
Qed.

(** The constructor, called with distinct steps, builds a well wired
    pipeline and leaves the class of every step as it was. *)
Lemma Pipeline_init_well_wired h ts :
  NoDup ts ->
  Forall (fun s => is_step h s = true) ts ->
  exists h',
    Pipeline_init h ts = Ok (length h, h')
    /\ well_wired h' (length h) ts
    /\ (forall l, l < length h -> class_of h' l = class_of h l).
Proof.
  intros Hnodup Hsteps. unfold Pipeline_init, alloc.
  assert (Hcls0 : forall l, l < length h ->
                            class_of (h ++ [Pipeline []]) l = class_of h l).
  { intros l Hl. unfold class_of. heap_lookup. reflexivity. }
  destruct (append_all_well_wired (length h) ts (h ++ [Pipeline []]) [])
    as (h' & Hall & Hw & Hcls).
  - repeat split.
    + unfold stages. heap_lookup. reflexivity.
    + apply NoDup_nil_2.
    + apply Forall_nil_2.
  - exact Hnodup.
  - eapply Forall_impl; [exact Hsteps|].
    intros s Hs. simpl in Hs. eapply is_step_preserved; eassumption.
  - exists h'. rewrite Hall. simpl.
    split; [reflexivity|]. split; [exact Hw|].
    intros l Hl. rewrite Hcls by (rewrite length_app; simpl; lia).
    apply Hcls0, Hl.
Qed.

(** [transform] on the first step of a linked chain runs the logic of
    every step, in order, when the depth allows one call per step and one
    for the sink. *)
Lemma transform_linked h ts : forall s x d,
  linked h (s :: ts) ->
  Forall (fun s => is_step h s = true) (s :: ts) ->
  transform (S (S (length ts)) + d) h s x = steps_logic h (s :: ts) x.
Proof.
  induction ts as [|s' ts IH]; intros s x d Hlinked Hsteps.
  - apply Forall_cons in Hsteps as [Hs _].
    apply is_step_lookup in Hs as (cls & n & Hs).
    destruct Hlinked as [Hclosed _].
    unfold terminal_closed_at, next_step_of, is_identity in Hclosed.
    rewrite Hs in Hclosed.
    simpl. unfold class_of. rewrite Hs.
    destruct (step_logic cls x) as [y|e]; simpl; [|reflexivity].
    destruct (h !! n) as [[]|]; try discriminate. reflexivity.
  - apply Forall_cons in Hsteps as [Hs Hsteps].
    apply is_step_lookup in Hs as (cls & n & Hs).
    destruct Hlinked as [Hnext Hlinked].
    unfold next_step_of in Hnext. rewrite Hs in Hnext. injection Hnext as ->.
    change (steps_logic h (s :: s' :: ts) x)
      with (match class_of h s with
            | Some cls => step_logic cls x ≫= steps_logic h (s' :: ts)
            | None => Raise AttributeError
            end).
    change (transform (S (S (length (s' :: ts))) + d) h s x)
      with (match h !! s with
            | Some IdentityTransformer => Ok x
            | Some (DatasetTransformerStepBase cls next_step) =>
                step_logic cls x
                  ≫= transform (S (S (length ts)) + d) h next_step
            | Some (Pipeline transformers) =>
                match transformers !! 0 with
                | Some first => transform (S (S (length ts)) + d) h first x
                | None => Raise IndexError
                end
            | _ => Raise AttributeError
            end).
    unfold class_of. rewrite Hs.
    destruct (step_logic cls x) as [y|e]; simpl; [|reflexivity].
    apply (IH s' y d Hlinked Hsteps).
Qed.

Lemma steps_logic_ext h h' ts : forall x,
  (forall s, s ∈ ts -> class_of h' s = class_of h s) ->
  steps_logic h' ts x = steps_logic h ts x.
Proof.
  induction ts as [|s ts IH]; intros x Hcls; simpl.
  - reflexivity.
  - rewrite Hcls by left. destruct (class_of h s) as [cls|]; [|reflexivity].
    destruct (step_logic cls x) as [y|e]; simpl; [|reflexivity].
    apply IH. intros s' Hs'. apply Hcls. by right.
Qed.

(** A pipeline constructed from one or more distinct steps is built, and
    its [transform] applies the logic of the steps in the given order,
    provided the depth allows one call per step, one for the pipeline and
    one for the sink. *)
Lemma Pipeline_of_distinct_steps h s ts x d :
  NoDup (s :: ts) ->
  Forall (fun s => is_step h s = true) (s :: ts) ->
  exists h',
    Pipeline_init h (s :: ts) = Ok (length h, h')
    /\ well_wired h' (length h) (s :: ts)
    /\ transform (S (S (S (length ts))) + d) h' (length h) x
       = steps_logic h (s :: ts) x.
Proof.
  intros Hnodup Hsteps.
  destruct (Pipeline_init_well_wired h (s :: ts) Hnodup Hsteps)
    as (h' & Hinit & Hw & Hcls).
  exists h'. split; [exact Hinit|]. split; [exact Hw|].
  destruct Hw as (Hst & _ & Hsteps' & Hlinked).
  apply stages_lookup in Hst.
  change (transform (S (S (S (length ts))) + d) h' (length h) x)
    with (match h' !! length h with
          | Some IdentityTransformer => Ok x
          | Some (DatasetTransformerStepBase cls next_step) =>
              step_logic cls x
                ≫= transform (S (S (length ts)) + d) h' next_step
          | Some (Pipeline transformers) =>
              match transformers !! 0 with
              | Some first => transform (S (S (length ts)) + d) h' first x
              | None => Raise IndexError
              end
          | _ => Raise AttributeError
          end).
  rewrite Hst. change ((s :: ts) !! 0) with (Some s). cbv beta iota.
  rewrite (transform_linked h' ts s x d Hlinked Hsteps').
  apply steps_logic_ext. intros s' Hs'. apply Hcls.
  rewrite Forall_forall in Hsteps. apply is_step_lt, Hsteps, Hs'.
Qed.
End Chain.

(** C4, as stated, fails when the stage appended is one the pipeline
    already holds.  After [p.append(s); p.append(s)] the next reference of
    [s] is [s] itself, not an [IdentityTransformer].  After
    [p.append(s1); p.append(s2); p.append(s1)] the next reference of [s1]
    is a new sink and [s2] refers to [s1], but the chain that starts at
    [s1] no longer reaches [s2]: [s2] dangles, and [transform] no longer
    runs it. *)
Lemma append_held_stage_breaks_chain :
  first_append = Ok (None_, one_stage_heap)
  /\ (exists h', Pipeline_append one_stage_heap 0 2 = Ok (None_, h')
                 /\ next_step_of h' 2 = Some 2)
  /\ ~ append_closes_chain one_stage_heap 0 2
  /\ second_append = Ok (None_, two_stage_heap)
  /\ (exists h', Pipeline_append two_stage_heap 0 2 = Ok (None_, h')
                 /\ stages h' 0 = Some [2; 5; 2]
                 /\ next_step_of h' 2 = Some 7
                 /\ is_identity h' 7 = true
                 /\ next_step_of h' 5 = Some 2
                 /\ transform 5 two_stage_heap 0 None_ = Ok Ellipsis
                 /\ transform 5 h' 0 None_ = Ok None_)
  /\ ~ append_closes_chain two_stage_heap 0 2.
Proof.
  split; [reflexivity|]. split; [eexists; split; reflexivity|]. split.
  { intros (r & h' & sink & ts & Happ & _ & _ & Hid & Hnext & _).
    vm_compute in Happ. injection Happ as <- <-.
    vm_compute in Hnext. injection Hnext as <-.
    vm_compute in Hid. discriminate Hid. }
  split; [reflexivity|]. split; [eexists; repeat split; reflexivity|].
  intros (r & h' & sink & ts & Happ & Hst & _ & _ & _ & _ & _ & Hlinked).
  vm_compute in Happ. injection Happ as <- <-.
  vm_compute in Hst. injection Hst as <-.
  destruct Hlinked as [Hfirst _]. vm_compute in Hfirst. discriminate Hfirst.
Qed.

(** C4, amended. On a pipeline whose stages are distinct steps, each one
    referring to the next and the last one to an [IdentityTransformer],
    appending a step that the pipeline does not hold returns and leaves the
    appended step referring to a new [IdentityTransformer], the stage that
    was last referring to the appended step, the appended step last in the
    pipeline, and no stage dangling: every stage held refers to the stage
    held after it, the appended one to the sink. *)
Theorem append_closes_chain_for_new_step (h : list Obj)
    (self transformer : loc) (ts : list loc) :
  well_wired h self ts ->
  is_step h transformer = true ->
  transformer ∉ ts ->
  append_closes_chain h self transformer.
Proof.
  intros Hw Hstep Hnotin.
  pose proof Hw as (Hst & _ & Hsteps & _).
  assert (Hlast : last ts <> Some transformer).
  { intros Hl. apply Hnotin. eapply last_Some_elem_of, Hl. }
  assert (Hprev : forall previous, last ts = Some previous ->
                                   is_step h previous = true).
  { intros previous Hl. rewrite Forall_forall in Hsteps.
    eapply Hsteps, last_Some_elem_of, Hl. }
  destruct (Pipeline_append_effect h self transformer ts Hst Hstep Hlast Hprev)
    as (h' & Happ & _ & Hself' & Hsink & Hnext & Hrelink & _).
  destruct (well_wired_append h self ts transformer Hw Hstep Hnotin)
    as (h'' & Happ' & (_ & _ & _ & Hlinked) & _).
  rewrite Happ in Happ'. injection Happ' as <-.
  exists None_, h', (length h), ts.
  split; [exact Happ|]. split; [exact Hst|].
  split; [apply lookup_ge_None_2; lia|].
  split; [unfold is_identity; rewrite Hsink; reflexivity|].
  split; [exact Hnext|]. split; [exact Hrelink|].
  split; [unfold stages; rewrite Hself'; reflexivity | exact Hlinked].
Qed.

Lemma append_closes_chain_for_new_step_witness :
  second_append = Ok (None_, two_stage_heap)
  /\ append_closes_chain
       (DatasetTransformerStepBase_init one_stage_heap
          (ColumnsSelectorTransformer ["salary"]) None).2
       0 5.
Proof.
  split; [reflexivity|].
  apply (append_closes_chain_for_new_step _ 0 5 [2]).
  - repeat split; try reflexivity.
    + apply NoDup_singleton.
    + repeat constructor.
  - reflexivity.
  - intros Hin%list_elem_of_singleton. discriminate Hin.
Defined.

End DecoratorFacts.

(** ** More on the exception handlers *)

Module ChainLaws.
Import ChainOfResponsibility.

Section Driver.
Implicit Types (handlers : list IExceptionHandler).
Implicit Types (ctx : ExceptionHandlingContext) (i : nat).

(** The loop is left by [break] exactly when the context ends handled, and
    it calls the handlers at consecutive positions, starting with the
    first. *)
Lemma for_handlers_shape handlers : forall i ctx,
  is_handled ctx = false ->
  exists k,
    (for_handlers i handlers ctx).2 = is_handled (for_handlers i handlers ctx).1.1
    /\ map fst (for_handlers i handlers ctx).1.2 = seq i k
    /\ k <= length handlers
    /\ ((for_handlers i handlers ctx).2 = false -> k = length handlers)
    /\ (handlers <> [] -> 0 < k).
Proof.
  induction handlers as [|h rest IH]; intros i ctx Hctx; simpl.
  - exists 0. rewrite Hctx. repeat split; auto. congruence.
  - destruct (handle h ctx) as [ctx1 calls].
    destruct (is_handled ctx1) eqn:Hh.
    + exists 1. simpl. rewrite Hh. repeat split; auto; try lia; discriminate.
    + destruct (IH (S i) ctx1 Hh) as (k & Hb & Hpos & Hle & Hall & _).
      destruct (for_handlers (S i) rest ctx1) as [[ctx2 inv] broke].
      simpl in *. exists (S k). simpl. rewrite Hpos.
      repeat split; auto; try lia.
Qed.

Lemma shutdown_calls_app (a b : list Call) :
  shutdown_calls (a ++ b) = shutdown_calls a + shutdown_calls b.
Proof. unfold shutdown_calls. rewrite filter_app, length_app. reflexivity. Qed.

Lemma shutdown_calls_one (g : loc) : shutdown_calls [Call_shutdown g] = 1.
Proof. reflexivity. Qed.

(** What a handler of the file does to an unhandled context: it keeps the
    exception, and either declines without a shutdown, or claims the work
    with a shutdown as its last call, or claims a [ModuleNotFoundError]
    that has a [name] without any shutdown. *)
Lemma source_handle_shape h ctx :
  source_handler h ->
  is_handled ctx = false ->
  exception (handle h ctx).1 = exception ctx
  /\ ((is_handled (handle h ctx).1 = false /\ shutdown_calls (handle h ctx).2 = 0)
      \/ (is_handled (handle h ctx).1 = true
          /\ exists pre g, (handle h ctx).2 = pre ++ [Call_shutdown g]
                           /\ shutdown_calls pre = 0)
      \/ (is_handled (handle h ctx).1 = true
          /\ shutdown_calls (handle h ctx).2 = 0
          /\ cls (exception ctx) = ModuleNotFoundError
          /\ is_Some (name (exception ctx)))).
Proof.
  intros Hsrc Hctx. destruct ctx as [[c msg nm] hd]. simpl in Hctx. subst hd.
  destruct Hsrc as [pl lg|gs|gs lg|gs lg]; unfold isinstance; simpl.
  - destruct c; simpl; try (split; [reflexivity | left; split; reflexivity]).
    destruct nm as [n|]; simpl.
    + split; [reflexivity|].
      destruct (try_load_from_plugin pl n) eqn:Hload.
      * right. right. repeat split; eauto.
      * left. split; reflexivity.
    + split; [reflexivity | left; split; reflexivity].
  - destruct c; simpl; try (split; [reflexivity | left; split; reflexivity]).
    split; [reflexivity|]. right. left. split; [reflexivity|].
    exists [], gs. split; reflexivity.
  - destruct c; simpl; try (split; [reflexivity | left; split; reflexivity]).
    split; [reflexivity|]. right. left. split; [reflexivity|].
    eexists [_], gs. split; reflexivity.
  - split; [reflexivity|]. right. left. split; [reflexivity|].
    eexists [_], gs. split; reflexivity.
Qed.

Lemma for_source_handlers_shape handlers : forall i ctx,
  Forall source_handler handlers ->
  is_handled ctx = false ->
  let r := for_handlers i handlers ctx in
  let calls := concat (map snd r.1.2) in
  (r.2 = false /\ shutdown_calls calls = 0)
  \/ (r.2 = true
      /\ exists pre g, calls = pre ++ [Call_shutdown g] /\ shutdown_calls pre = 0)
  \/ (r.2 = true
      /\ shutdown_calls calls = 0
      /\ cls (exception ctx) = ModuleNotFoundError
      /\ is_Some (name (exception ctx))).
Proof.
  induction handlers as [|h rest IH]; intros i ctx Hsrc Hctx; simpl.
  - left. split; reflexivity.
  - apply Forall_cons in Hsrc as [Hh Hrest].
    destruct (source_handle_shape h ctx Hh Hctx) as [Hex Hcases].
    destruct (handle h ctx) as [ctx1 calls] eqn:Hrun. simpl in *.
    destruct Hcases as [[Hd Hn]|[[Hd (pre & g & -> & Hn)]|[Hd (Hn & Hc & Hs)]]];
      rewrite Hd; simpl.
    + specialize (IH (S i) ctx1 Hrest Hd). rewrite Hex in IH.
      destruct (for_handlers (S i) rest ctx1) as [[ctx2 inv] broke].
      simpl in *.
      destruct IH as [[Hb Hz]|[[Hb (pre & g & Hc & Hz)]|[Hb (Hz & Hc & Hs)]]].
      * left. split; [exact Hb|]. rewrite shutdown_calls_app, Hn, Hz. reflexivity.
      * right. left. split; [exact Hb|].
        exists (calls ++ pre), g. rewrite Hc, app_assoc.
        split; [reflexivity|]. rewrite shutdown_calls_app, Hn, Hz. reflexivity.
      * right. right. repeat split; auto.
        rewrite shutdown_calls_app, Hn, Hz. reflexivity.
    + right. left. split; [reflexivity|].
      exists pre, g. rewrite app_nil_r. split; [reflexivity | exact Hn].
    + right. right. rewrite app_nil_r. repeat split; auto.
Qed.
End Driver.

(** X1. The fallback of [handle_exception] runs exactly when the context
    ends unhandled: the [else] branch makes its one [shutdown] call if no
    handler set [is_handled], and makes no call otherwise. *)
Theorem fallback_iff_unhandled (self : ChainExceptionHandler)
    (ex : BaseException) :
  fallback (handle_exception self ex)
  = if is_handled (context (handle_exception self ex))
    then []
    else [Call_shutdown (graceful_shutdown self)].
Proof.
  unfold handle_exception.
  destruct (for_handlers_shape (exception_handlers self) 0
              {| exception := ex; is_handled := false |} eq_refl)
    as (k & Hb & _).
  destruct (for_handlers _ _ _) as [[ctx inv] broke]. simpl in *.
  rewrite Hb. reflexivity.
Qed.


(** X3. Whatever handlers of the file are configured, in whatever order,
    one [handle_exception] call makes at most one [shutdown] call, and
    that call is the last call made.  No [shutdown] call is made only for
    a [ModuleNotFoundError] that has a [name]. *)
Theorem source_handlers_shutdown_at_most_once (self : ChainExceptionHandler)
    (ex : BaseException) :
  Forall source_handler (exception_handlers self) ->
  shutdown_calls (trace (handle_exception self ex)) <= 1
  /\ exists pre,
       shutdown_calls pre = 0
       /\ ((trace (handle_exception self ex) = pre
            /\ cls ex = ModuleNotFoundError /\ is_Some (name ex))
           \/ exists g, trace (handle_exception self ex) = pre ++ [Call_shutdown g]).
Proof.
  intros Hsrc. unfold handle_exception, trace.
  pose proof (for_source_handlers_shape (exception_handlers self) 0
                {| exception := ex; is_handled := false |} Hsrc eq_refl) as H.
  destruct (for_handlers _ _ _) as [[ctx inv] broke]. simpl in *.
  destruct H as [[-> Hz]|[[-> (pre & g & -> & Hz)]|[-> (Hz & Hc & Hs)]]]; simpl.
  - split.
    + rewrite shutdown_calls_app, Hz, shutdown_calls_one. lia.
    + eexists. split; [exact Hz|]. right. eexists. reflexivity.
  - rewrite app_nil_r. split.
    + rewrite shutdown_calls_app, Hz, shutdown_calls_one. lia.
    + exists pre. split; [exact Hz|]. right. exists g. reflexivity.
  - rewrite app_nil_r. split.
    + rewrite Hz. lia.
    + eexists. split; [exact Hz|]. left. auto.
Qed.

Lemma source_handlers_shutdown_at_most_once_witness :
  shutdown_calls
    (trace
       (handle_exception
          {| graceful_shutdown := 7;
             exception_handlers :=
               [UnexpectedExceptionHandler 7 8; KeyboardInterruptHandler 7] |}
          {| cls := KeyboardInterrupt; str := "^C"; name := None |})) <= 1.
Proof.
  apply (source_handlers_shutdown_at_most_once
           {| graceful_shutdown := 7;
              exception_handlers :=
                [UnexpectedExceptionHandler 7 8; KeyboardInterruptHandler 7] |}
           {| cls := KeyboardInterrupt; str := "^C"; name := None |}).
  simpl. repeat constructor.
Defined.

(** With [isinstance] as the instance test, the definitions for
    exceptions of several classes are the definitions for exceptions of
    one class. *)
Lemma for_isinstance :
  ModuleNotFoundErrorHandler_for isinstance = ModuleNotFoundErrorHandler
  /\ KeyboardInterruptHandler_for isinstance = KeyboardInterruptHandler
  /\ NotImplementedErrorHandler_for isinstance = NotImplementedErrorHandler
  /\ good_main_handler_for isinstance = good_main_handler
  /\ god_handle_exception_for isinstance = god_handle_exception
  /\ bad_main_for isinstance = bad_main
  /\ good_main_for isinstance = good_main.
Proof. repeat split; reflexivity. Qed.

(** X4. On every exception, of one or of several of the classes tested,
    the handler with the [if]/[elif]/[else] and the chain of [good_main],
    given the same collaborators, make the same calls, except for a
    [ModuleNotFoundError] that is not recovered: there the handler with
    the [if] shuts down, and the chain goes on to the later handlers,
    which do what the [elif]/[else] branches would have done with the
    exception (a shutdown alone for a [KeyboardInterrupt], after a log
    entry otherwise). *)
Theorem god_and_chain_traces (is_a : BaseException -> ExceptionClass -> bool)
    (plugin_loader : IPluginLoader) (gs logger : loc) (ex : BaseException) :
  let god :=
    god_handle_exception_for is_a
      {| god_plugin_loader := plugin_loader;
         god_graceful_shutdown := gs;
         god_logger := logger |} ex in
  trace (handle_exception (good_main_handler_for is_a gs logger plugin_loader) ex)
  = if unrecovered_module_not_found_for is_a plugin_loader ex
    then removelast god ++ other_branches is_a gs logger ex
    else god.
Proof.
  destruct ex as [c msg nm].
  unfold god_handle_exception_for, unrecovered_module_not_found_for,
    other_branches, handle_exception, trace,
    _handle_module_not_found_error; simpl.
  destruct (is_a _ ModuleNotFoundError); simpl.
  - destruct nm as [n|]; simpl.
    + destruct (try_load_from_plugin plugin_loader n); simpl; [reflexivity|].
      destruct (is_a _ KeyboardInterrupt); simpl; [reflexivity|].
      destruct (is_a _ NotImplementedError); reflexivity.
    + destruct (is_a _ KeyboardInterrupt); simpl; [reflexivity|].
      destruct (is_a _ NotImplementedError); reflexivity.
  - destruct (is_a _ KeyboardInterrupt); simpl; [reflexivity|].
    destruct (is_a _ NotImplementedError); reflexivity.
Qed.

(** X5. On every exception the two handlers make the same calls on the
    plugin loader and on the shutdown object: they differ in log entries
    only. *)
Theorem god_and_chain_same_effects (plugin_loader : IPluginLoader)
    (gs logger : loc) (ex : BaseException) :
  without_logs
    (trace (handle_exception (good_main_handler gs logger plugin_loader) ex))
  = without_logs
      (god_handle_exception
         {| god_plugin_loader := plugin_loader;
            god_graceful_shutdown := gs;
            god_logger := logger |} ex).
Proof.
  destruct ex as [c msg nm].
  unfold god_handle_exception, handle_exception, trace, isinstance,
    _handle_module_not_found_error; simpl.
  destruct c; simpl; try reflexivity.
  destruct nm as [n|]; simpl; [|reflexivity].
  destruct (try_load_from_plugin plugin_loader n); reflexivity.
Qed.

(** X6. [bad_main] and [good_main] make the same calls for every outcome
    of [service_logic] but one kind: they differ exactly when the
    exception raised is a [ModuleNotFoundError] whose [name] is [None] and
    that is not also a [KeyboardInterrupt]. *)
Theorem mains_agree_unless_nameless_module
    (is_a : BaseException -> ExceptionClass -> bool)
    (plugin_loader gs logger : loc) (service_logic : option BaseException) :
  bad_main_for is_a plugin_loader gs logger service_logic
  = good_main_for is_a plugin_loader gs logger service_logic
  <-> ~ (exists e, service_logic = Some e
                   /\ is_a e ModuleNotFoundError = true
                   /\ name e = None
                   /\ is_a e KeyboardInterrupt = false).
Proof.
  unfold bad_main_for, good_main_for. destruct service_logic as [[c msg nm]|].
  - unfold god_handle_exception_for, handle_exception, trace,
      _handle_module_not_found_error; simpl.
    destruct (is_a _ ModuleNotFoundError) eqn:Hm; simpl.
    + destruct nm as [n|]; simpl.
      * split; [|reflexivity].
        intros _ (e & [= <-] & _ & Hn & _). discriminate Hn.
      * destruct (is_a _ KeyboardInterrupt) eqn:Hk; simpl.
        -- split; [|reflexivity].
           intros _ (e & [= <-] & _ & _ & Hk'). congruence.
        -- split.
           ++ destruct (is_a _ NotImplementedError); intros Heq;
                discriminate Heq.
           ++ intros Hno. exfalso. apply Hno. eexists. repeat split; eauto.
    + split.
      * intros _ (e & [= <-] & Hm' & _). congruence.
      * intros _. destruct (is_a _ KeyboardInterrupt); simpl; [reflexivity|].
        destruct (is_a _ NotImplementedError); reflexivity.
  - split; [intros _ (e & He & _); discriminate He | reflexivity].
Qed.

End ChainLaws.

(** ** More on the aggregating pipeline *)

Module CompositeLaws.
Import Composite_pipelining.

Section Transform.
Implicit Types (h : list Obj) (p s t : loc) (ts : list loc).
Implicit Types (x y : PyObject) (r : Result PyObject) (d : nat).

Lemma transform_S d h s x :
  transform (S d) h s x
  = match h !! s with
    | Some AddTotalsRowTransformer => Ok x
    | Some (ColumnsSelectorTransformer _) => Ok Ellipsis
    | Some (FunctionTransformer transformer) => transformer x
    | Some (Pipeline transformations) =>
        transform_loop (transform d h) transformations x
    | _ => Raise AttributeError
    end.
Proof. reflexivity. Qed.

Lemma bind_ext (f g : PyObject -> Result PyObject) r :
  (forall y, f y = g y) -> r ≫= f = r ≫= g.
Proof. intros Hfg. destruct r as [y|e]; simpl; [apply Hfg | reflexivity]. Qed.

Lemma bind_Ok r : r ≫= Ok = r.
Proof. destruct r; reflexivity. Qed.

Lemma transform_loop_snoc (f : loc -> PyObject -> Result PyObject) ts t x :
  transform_loop f (ts ++ [t]) x = transform_loop f ts x ≫= f t.
Proof.
  rewrite CompositeFacts.transform_loop_app. apply bind_ext.
  intros y. cbn [transform_loop]. apply bind_Ok.
Qed.

(** The loop depends on the [transform] of its stages only. *)
Lemma transform_loop_ext (f g : loc -> PyObject -> Result PyObject) ts x :
  (forall t y, t ∈ ts -> f t y = g t y) ->
  transform_loop f ts x = transform_loop g ts x.
Proof.
  revert x. induction ts as [|t rest IH]; intros x Hfg; simpl.
  - reflexivity.
  - rewrite Hfg by left. destruct (g t x) as [y|e]; simpl; [|reflexivity].
    apply IH. intros t' y' Ht'. apply Hfg. by right.
Qed.

(** A leaf transforms by its own state: neither the depth left nor the
    rest of the heap matters. *)
Lemma transform_leaf d d' h h' s x :
  is_leaf h s = true ->
  h' !! s = h !! s ->
  transform (S d') h' s x = transform (S d) h s x.
Proof.
  unfold is_leaf. intros Hleaf Hs. rewrite !transform_S, Hs.
  destruct (h !! s) as [[]|]; try discriminate; reflexivity.
Qed.

Lemma transform_loop_mono d h ts : forall x r,
  (forall t y r', transform d h t y = r' -> r' <> Raise RecursionError ->
                  transform (S d) h t y = r') ->
  transform_loop (transform d h) ts x = r ->
  r <> Raise RecursionError ->
  transform_loop (transform (S d) h) ts x = r.
Proof.
  induction ts as [|t rest IH]; intros x r Hstep Hloop Hr.
  - exact Hloop.
  - cbn [transform_loop] in *.
    destruct (transform d h t x) as [y|e] eqn:Ht.
    + rewrite (Hstep t x (Ok y) Ht) by discriminate. simpl in *.
      apply IH; assumption.
    + simpl in Hloop. subst r.
      rewrite (Hstep t x (Raise e) Ht) by exact Hr. reflexivity.
Qed.

Lemma transform_mono_S d : forall h s x r,
  transform d h s x = r ->
  r <> Raise RecursionError ->
  transform (S d) h s x = r.
Proof.
  induction d as [|d IH]; intros h s x r Hrun Hr.
  - simpl in Hrun. congruence.
  - rewrite transform_S in Hrun. rewrite transform_S.
    destruct (h !! s) as [[| | | |ts|]|]; try exact Hrun.
    apply transform_loop_mono; [|exact Hrun|exact Hr].
    intros t y r'. apply IH.
Qed.

Lemma transform_mono d d' h s x r :
  transform d h s x = r ->
  r <> Raise RecursionError ->
  d <= d' ->
  transform d' h s x = r.
Proof.
  intros Hrun Hr Hle. induction Hle as [|d' Hle IH].
  - exact Hrun.
  - apply transform_mono_S; assumption.
Qed.

(** The effect of [append] on the heap. *)
Lemma Pipeline_append_heap h p t ts :
  stages h p = Some ts ->
  Pipeline_append h p t = Ok (Ref p, <[p := Pipeline (ts ++ [t])]> h)
  /\ stages (<[p := Pipeline (ts ++ [t])]> h) p = Some (ts ++ [t])
  /\ forall l, l <> p -> <[p := Pipeline (ts ++ [t])]> h !! l = h !! l.
Proof.
  unfold stages, Pipeline_append. intros Hp.
  destruct (h !! p) as [[]|] eqn:Hself; try discriminate.
  injection Hp as ->. split; [reflexivity|]. split.
  - rewrite list_lookup_insert_eq; [reflexivity|].
    eapply lookup_lt_Some, Hself.
  - intros l Hl. apply list_lookup_insert_ne. congruence.
Qed.

Lemma leaf_not_pipeline h p s ts :
  stages h p = Some ts -> is_leaf h s = true -> s <> p.
Proof.
  unfold stages, is_leaf. intros Hp Hs ->.
  destruct (h !! p) as [[]|]; discriminate.
Qed.

(** After [append] of a leaf to a pipeline of leaves, [transform] runs the
    former stages and then the new one. *)
Lemma transform_after_append h p t ts d x :
  stages h p = Some ts ->
  Forall (fun s => is_leaf h s = true) ts ->
  is_leaf h t = true ->
  transform (S (S d)) (<[p := Pipeline (ts ++ [t])]> h) p x
  = transform (S (S d)) h p x ≫= transform (S d) h t.
Proof.
  intros Hp Hleaves Ht.
  destruct (Pipeline_append_heap h p t ts Hp) as (_ & Hp' & Hframe).
  rewrite (CompositeFacts.transform_pipeline _ _ _ _ _ Hp').
  rewrite (CompositeFacts.transform_pipeline _ _ _ _ _ Hp).
  rewrite transform_loop_snoc.
  rewrite (transform_loop_ext _ (transform (S d) h)).
  - apply bind_ext. intros y. apply (transform_leaf d d h _ t y Ht).
    apply Hframe. exact (leaf_not_pipeline h p t ts Hp Ht).
  - intros s y Hs. rewrite Forall_forall in Hleaves.
    apply (transform_leaf d d h _ s y (Hleaves s Hs)).
    apply Hframe. exact (leaf_not_pipeline h p s ts Hp (Hleaves s Hs)).
Qed.
End Transform.

(** X7. [transform] of a pipeline is the left fold of the [transform] of
    its stages over the input, in the order of the list; once a stage has
    raised, the exception is the result. *)
Theorem pipeline_transform_left_fold (h : list Obj) (p : loc)
    (ts : list loc) (d : nat) (x : PyObject) :
  stages h p = Some ts ->
  transform (S d) h p x
  = fold_left (fun acc t => acc ≫= transform d h t) ts (Ok x).
Proof.
  intros Hp. rewrite (CompositeFacts.transform_pipeline _ _ _ _ _ Hp).
  apply CompositeFacts.transform_loop_fold.
Qed.

Lemma pipeline_transform_left_fold_witness :
  transform 2
    [AddTotalsRowTransformer; ColumnsSelectorTransformer ["salary"];
     Pipeline [0; 1; 0]] 2 (Ref 0)
  = Ok Ellipsis.
Proof.
  rewrite (pipeline_transform_left_fold _ 2 [0; 1; 0] 1 (Ref 0)); reflexivity.
Defined.

Lemma transform_loop_traced_result
    (f : loc -> PyObject -> list loc * Result PyObject)
    (g : loc -> PyObject -> Result PyObject) (ts : list loc) :
  (forall t y, (f t y).2 = g t y) ->
  forall x, (transform_loop_traced f ts x).2 = transform_loop g ts x.
Proof.
  intros Hfg. induction ts as [|t rest IH]; intros x; simpl.
  - reflexivity.
  - rewrite <- Hfg. destruct (f t x) as [calls [y|e]]; simpl; [|reflexivity].
    rewrite <- IH. destruct (transform_loop_traced f rest y). reflexivity.
Qed.

(** The record of the calls leaves the result of [transform] as it is. *)
Lemma transform_traced_result (d : nat) : forall (h : list Obj) (s : loc)
    (x : PyObject),
  (transform_traced d h s x).2 = transform d h s x.
Proof.
  induction d as [|d IH]; intros h s x; simpl.
  - reflexivity.
  - destruct (h !! s) as [[| | | |ts|]|]; try reflexivity.
    rewrite <- (transform_loop_traced_result (transform_traced d h)
                  (transform d h) ts (IH h)).
    destruct (transform_loop_traced _ ts x). reflexivity.
Qed.

Lemma transform_loop_traced_abort
    (f : loc -> PyObject -> list loc * Result PyObject)
    (before after : list loc) (t : loc) (x y : PyObject) (e : PyError)
    (calls_before calls_t : list loc) :
  transform_loop_traced f before x = (calls_before, Ok y) ->
  f t y = (calls_t, Raise e) ->
  transform_loop_traced f (before ++ t :: after) x
  = (calls_before ++ calls_t, Raise e).
Proof.
  revert x calls_before.
  induction before as [|b rest IH]; intros x calls_before Hbefore Ht; simpl in *.
  - injection Hbefore as <- <-. rewrite Ht. reflexivity.
  - destruct (f b x) as [calls_b [z|e']]; [|discriminate Hbefore].
    destruct (transform_loop_traced f rest z) as [calls_rest r] eqn:Hrest.
    injection Hbefore as <- ->.
    rewrite (IH z calls_rest Hrest Ht), app_assoc. reflexivity.
Qed.

(** X8. A stage that raises ends [transform]: the exception is the result
    of the pipeline, and the calls made are those of the stages before it
    and of the stage itself; no stage after it is called. *)
Theorem failing_stage_aborts (h : list Obj) (p t : loc)
    (before after : list loc) (d : nat) (x y : PyObject) (e : PyError)
    (calls_before calls_t : list loc) :
  stages h p = Some (before ++ t :: after) ->
  transform_loop_traced (transform_traced d h) before x = (calls_before, Ok y) ->
  transform_traced d h t y = (calls_t, Raise e) ->
  transform_traced (S d) h p x = (p :: calls_before ++ calls_t, Raise e)
  /\ transform (S d) h p x = Raise e.
Proof.
  intros Hp Hbefore Ht.
  assert (Htraced : transform_traced (S d) h p x
                    = (p :: calls_before ++ calls_t, Raise e)).
  { unfold stages in Hp. simpl.
    destruct (h !! p) as [[| | | |ts|]|]; try discriminate Hp.
    injection Hp as ->.
    rewrite (transform_loop_traced_abort _ before after t x y e
               calls_before calls_t Hbefore Ht).
    reflexivity. }
  split; [exact Htraced|].
  rewrite <- transform_traced_result, Htraced. reflexivity.
Qed.

Lemma failing_stage_aborts_witness :
  transform_traced 2
    [AddTotalsRowTransformer; FunctionTransformer times_10;
     ColumnsSelectorTransformer ["salary"]; Pipeline [0; 1; 2]] 3 None_
  = ([3; 0; 1], Raise TypeError).
Proof.
  apply (failing_stage_aborts _ 3 1 [0] [2] 1 None_ None_ TypeError [0] [1]);
    reflexivity.
Defined.

(** X9. A result other than [RecursionError] does not depend on the depth
    allowed: with a larger depth [transform] gives the same result. *)
Theorem transform_depth_monotone (d d' : nat) (h : list Obj) (s : loc)
    (x : PyObject) (r : Result PyObject) :
  transform d h s x = r ->
  r <> Raise RecursionError ->
  d <= d' ->
  transform d' h s x = r.
Proof. apply transform_mono. Qed.

Lemma transform_depth_monotone_witness :
  transform 9 [AddTotalsRowTransformer; Pipeline [0]; Pipeline [1; 0]] 2 Ellipsis
  = Ok Ellipsis.
Proof.
  apply (transform_depth_monotone 3 9); [reflexivity | discriminate | lia].
Defined.

(** X10. [append] of a leaf transformer to a pipeline of leaf transformers
    returns the pipeline, and from then on [transform] gives what it gave
    before, passed through the new stage. *)
Theorem append_extends_transform (h : list Obj) (p t : loc) (ts : list loc) :
  stages h p = Some ts ->
  Forall (fun s => is_leaf h s = true) ts ->
  is_leaf h t = true ->
  exists h',
    Pipeline_append h p t = Ok (Ref p, h')
    /\ stages h' p = Some (ts ++ [t])
    /\ forall d x,
         transform (S (S d)) h' p x
         = transform (S (S d)) h p x ≫= transform (S d) h t.
Proof.
  intros Hp Hleaves Ht.
  destruct (Pipeline_append_heap h p t ts Hp) as (Happ & Hp' & _).
  eexists. split; [exact Happ|]. split; [exact Hp'|].
  intros d x. apply transform_after_append; assumption.
Qed.

Lemma append_extends_transform_witness :
  exists h',
    Pipeline_append
      [AddTotalsRowTransformer; ColumnsSelectorTransformer ["salary"];
       Pipeline [0]] 2 1 = Ok (Ref 2, h')
    /\ stages h' 2 = Some [0; 1].
Proof.
  destruct (append_extends_transform
              [AddTotalsRowTransformer; ColumnsSelectorTransformer ["salary"];
               Pipeline [0]] 2 1 [0]) as (h' & Happ & Hst & _).
  - reflexivity.
  - repeat constructor.
  - reflexivity.
  - exists h'. split; assumption.
Defined.

(** X11. A pipeline held as the only stage of another pipeline is held by
    reference: a stage appended to the inner pipeline afterwards is run by
    the outer pipeline too. *)
Theorem append_to_nested_is_visible (h : list Obj) (outer inner t : loc)
    (ts : list loc) :
  stages h outer = Some [inner] ->
  stages h inner = Some ts ->
  outer <> inner ->
  Forall (fun s => is_leaf h s = true) ts ->
  is_leaf h t = true ->
  exists h',
    Pipeline_append h inner t = Ok (Ref inner, h')
    /\ forall d x,
         transform (S (S (S d))) h' outer x
         = transform (S (S (S d))) h outer x ≫= transform (S d) h t.
Proof.
  intros Houter Hinner Hne Hleaves Ht.
  destruct (Pipeline_append_heap h inner t ts Hinner) as (Happ & _ & Hframe).
  eexists. split; [exact Happ|]. intros d x.
  assert (Houter' : stages (<[inner := Pipeline (ts ++ [t])]> h) outer
                    = Some [inner]).
  { unfold stages in *. rewrite Hframe by exact Hne. exact Houter. }
  rewrite (CompositeFacts.transform_pipeline _ _ _ _ _ Houter').
  rewrite (CompositeFacts.transform_pipeline _ _ _ _ _ Houter).
  change [inner] with ([] ++ [inner]). rewrite !transform_loop_snoc.
  cbn [transform_loop mbind Result_bind].
  rewrite (transform_after_append h inner t ts d x Hinner Hleaves Ht).
  reflexivity.
Qed.

Lemma append_to_nested_is_visible_witness :
  exists h',
    Pipeline_append
      [AddTotalsRowTransformer; ColumnsSelectorTransformer ["salary"];
       Pipeline [0]; Pipeline [2]] 2 1 = Ok (Ref 2, h')
    /\ transform 3 h' 3 (Ref 0) = Ok Ellipsis.
Proof.
  destruct (append_to_nested_is_visible
              [AddTotalsRowTransformer; ColumnsSelectorTransformer ["salary"];
               Pipeline [0]; Pipeline [2]] 3 2 1 [0]) as (h' & Happ & Hrun).
  - reflexivity.
  - reflexivity.
  - lia.
  - repeat constructor.
  - reflexivity.
  - exists h'. split; [exact Happ|]. rewrite (Hrun 0 (Ref 0)). reflexivity.
Defined.

(** X12. A pipeline that the sum of two pipelines is: when the first stage
    of [q] is the pipeline [p] and [f] holds the stages of [p] followed by
    the other stages of [q], every result of [q] other than
    [RecursionError] is the result of [f]. *)
Theorem nested_pipeline_flattens (h : list Obj) (q p f : loc)
    (ts1 ts2 : list loc) (d : nat) (x : PyObject) (r : Result PyObject) :
  stages h q = Some (p :: ts2) ->
  stages h p = Some ts1 ->
  stages h f = Some (ts1 ++ ts2) ->
  transform (S (S d)) h q x = r ->
  r <> Raise RecursionError ->
  transform (S (S d)) h f x = r.
Proof.
  intros Hq Hp Hf Hrun Hr.
  rewrite (CompositeFacts.transform_pipeline _ _ _ _ _ Hq) in Hrun.
  rewrite (CompositeFacts.transform_pipeline _ _ _ _ _ Hf).
  change (p :: ts2) with ([p] ++ ts2) in Hrun.
  rewrite CompositeFacts.transform_loop_app in Hrun.
  change [p] with ([] ++ [p]) in Hrun. rewrite transform_loop_snoc in Hrun.
  cbn [transform_loop mbind Result_bind] in Hrun.
  rewrite (CompositeFacts.transform_pipeline _ _ _ _ _ Hp) in Hrun.
  rewrite CompositeFacts.transform_loop_app.
  destruct (transform_loop (transform d h) ts1 x) as [y|e] eqn:H1.
  - rewrite (transform_loop_mono d h ts1 x (Ok y)); try done.
    intros t y' r'. apply transform_mono_S.
  - cbn [mbind Result_bind] in Hrun. subst r.
    rewrite (transform_loop_mono d h ts1 x (Raise e)); try done.
    intros t y' r'. apply transform_mono_S.
Qed.

Lemma nested_pipeline_flattens_witness :
  transform 3
    [AddTotalsRowTransformer; ColumnsSelectorTransformer ["salary"];
     Pipeline [1]; Pipeline [2; 0]; Pipeline [1; 0]] 4 (Ref 0)
  = Ok Ellipsis.
Proof.
  apply (nested_pipeline_flattens _ 3 2 4 [1] [0] 1 (Ref 0));
    try reflexivity. discriminate.
Defined.

(** X13. A pipeline appended to itself never returns from [transform]:
    whatever the depth allowed and the input, the result is not a
    value. *)
Theorem self_appended_pipeline_never_returns (h : list Obj) (p : loc)
    (ts : list loc) :
  stages h p = Some ts ->
  exists h',
    Pipeline_append h p p = Ok (Ref p, h')
    /\ forall d x y, transform d h' p x <> Ok y.
Proof.
  intros Hp.
  destruct (Pipeline_append_heap h p p ts Hp) as (Happ & Hp' & _).
  eexists. split; [exact Happ|].
  induction d as [|d IH]; intros x y.
  - discriminate.
  - rewrite (CompositeFacts.transform_pipeline _ _ _ _ _ Hp').
    rewrite transform_loop_snoc.
    destruct (transform_loop _ ts x) as [z|e];
      cbn [mbind Result_bind]; [|discriminate].
    apply IH.
Qed.

Lemma self_appended_pipeline_never_returns_witness :
  exists h',
    Pipeline_append [Pipeline []] 0 0 = Ok (Ref 0, h')
    /\ transform 5 h' 0 Ellipsis <> Ok Ellipsis.
Proof.
  destruct (self_appended_pipeline_never_returns [Pipeline []] 0 [])
    as (h' & Happ & Hnever).
  - reflexivity.
  - exists h'. split; [exact Happ | apply Hnever].
Defined.

End CompositeLaws.

(** ** More on the linked chain *)

Module DecoratorLaws.
Import Decorator_pipelining.

Ltac heap_lookup := DecoratorFacts.heap_lookup.

Section Steps.
Implicit Types (h : list Obj) (p s t n : loc) (ts : list loc).
Implicit Types (x y : PyObject) (r : Result PyObject) (d : nat).

Lemma chain_transform_S d h s x :
  transform (S d) h s x
  = match h !! s with
    | Some IdentityTransformer => Ok x
    | Some (DatasetTransformerStepBase cls next_step) =>
        step_logic cls x ≫= transform d h next_step
    | Some (Pipeline transformers) =>
        match transformers !! 0 with
        | Some first => transform d h first x
        | None => Raise IndexError
        end
    | _ => Raise AttributeError
    end.
Proof. reflexivity. Qed.

Lemma chain_transform_mono_S d : forall h s x r,
  transform d h s x = r ->
  r <> Raise RecursionError ->
  transform (S d) h s x = r.
Proof.
  induction d as [|d IH]; intros h s x r Hrun Hr.
  - simpl in Hrun. congruence.
  - rewrite chain_transform_S in Hrun. rewrite chain_transform_S.
    destruct (h !! s) as [[| |cls nxt|ts]|]; try exact Hrun.
    + destruct (step_logic cls x) as [y|e]; cbn [mbind Result_bind] in *.
      * apply IH; assumption.
      * exact Hrun.
    + destruct (ts !! 0) as [first|]; [|exact Hrun].
      apply IH; assumption.
Qed.

(** A value returned in a heap is returned in every extension of it. *)
Lemma transform_extend d : forall h ext s x y,
  transform d h s x = Ok y ->
  transform d (h ++ ext) s x = Ok y.
Proof.
  induction d as [|d IH]; intros h ext s x y Hrun.
  - discriminate Hrun.
  - rewrite chain_transform_S in Hrun. rewrite chain_transform_S.
    destruct (h !! s) as [o|] eqn:Hs; [|discriminate Hrun].
    rewrite (lookup_app_l_Some _ _ _ _ Hs).
    destruct o as [| |cls nxt|ts]; try exact Hrun.
    + destruct (step_logic cls x) as [z|e]; cbn [mbind Result_bind] in *;
        [|discriminate Hrun].
      apply IH, Hrun.
    + destruct (ts !! 0) as [first|]; [|discriminate Hrun].
      apply IH, Hrun.
Qed.

(** [transform] of a well wired pipeline with one stage or more. *)
Lemma transform_well_wired h p s ts d x :
  well_wired h p (s :: ts) ->
  transform (S (S (S (length ts))) + d) h p x = steps_logic h (s :: ts) x.
Proof.
  intros (Hst & _ & Hsteps & Hlinked).
  apply DecoratorFacts.stages_lookup in Hst.
  change (S (S (S (length ts))) + d) with (S (S (S (length ts)) + d)).
  rewrite chain_transform_S, Hst.
  change ((s :: ts) !! 0) with (Some s). cbv beta iota.
  apply DecoratorFacts.transform_linked; assumption.
Qed.

Lemma steps_logic_classes h ts cs : forall x,
  Forall2 (fun s c => class_of h s = Some c) ts cs ->
  steps_logic h ts x = classes_logic cs x.
Proof.
  intros x Hcs. revert x.
  induction Hcs as [|s c ts cs Hs _ IH]; intros x; simpl.
  - reflexivity.
  - rewrite Hs. destruct (step_logic c x) as [y|e]; simpl; [apply IH|reflexivity].
Qed.

(** [append] of the stage that is already last. *)
Lemma Pipeline_append_again h p s ts cls n :
  h !! p = Some (Pipeline ts) ->
  last ts = Some s ->
  h !! s = Some (DatasetTransformerStepBase cls n) ->
  Pipeline_append h p s
  = Ok (None_,
        <[p := Pipeline (ts ++ [s])]>
          (<[s := DatasetTransformerStepBase cls s]>
             (<[s := DatasetTransformerStepBase cls (length h)]>
                (h ++ [IdentityTransformer])))).
Proof.
  intros Hp Hlast Hs.
  pose proof (lookup_lt_Some _ _ _ Hp) as Hlt_p.
  pose proof (lookup_lt_Some _ _ _ Hs) as Hlt_s.
  assert (s <> p) by congruence.
  assert (0 < length ts) by (destruct ts; [discriminate | simpl; lia]).
  unfold Pipeline_append, alloc.
  rewrite (DecoratorFacts.set_next_step_step _ _ cls n)
    by (heap_lookup; exact Hs).
  simpl. heap_lookup. rewrite Hp. simpl.
  rewrite bool_decide_eq_true_2 by assumption.
  rewrite Hlast.
  rewrite (DecoratorFacts.set_next_step_step _ _ cls (length h))
    by (heap_lookup; reflexivity).
  reflexivity.
Qed.

(** A step that is its own next step never returns. *)
Lemma self_loop_never_returns h s cls :
  h !! s = Some (DatasetTransformerStepBase cls s) ->
  forall d x y, transform d h s x <> Ok y.
Proof.
  intros Hs. induction d as [|d IH]; intros x y.
  - discriminate.
  - rewrite chain_transform_S, Hs.
    destruct (step_logic cls x) as [z|e]; cbn [mbind Result_bind];
      [apply IH | discriminate].
Qed.

Lemma linked_lookup h ts : forall i a b,
  linked h ts ->
  ts !! i = Some a ->
  ts !! S i = Some b ->
  next_step_of h a = Some b.
Proof.
  induction ts as [|s ts IH]; intros i a b Hlinked Ha Hb.
  - discriminate Ha.
  - destruct Hlinked as [Hs Hrest]. destruct i as [|i]; simpl in *.
    + injection Ha as ->. destruct ts as [|s' ts']; [discriminate Hb|].
      simpl in Hb. injection Hb as ->. exact Hs.
    + eapply IH; eassumption.
Qed.

(** When every stage delegates to the stage after it and the last one
    never returns, no stage returns. *)
Lemma chain_never_returns h ts s :
  (forall i a b, ts !! i = Some a -> ts !! S i = Some b ->
                 exists cls, h !! a = Some (DatasetTransformerStepBase cls b)) ->
  last ts = Some s ->
  (forall d x y, transform d h s x <> Ok y) ->
  forall a, a ∈ ts -> forall d x y, transform d h a x <> Ok y.
Proof.
  intros Hnext Hlast Hs.
  induction ts as [|a0 rest IH]; intros a Ha; [by apply elem_of_nil in Ha|].
  destruct rest as [|b rest'].
  - apply list_elem_of_singleton in Ha as ->.
    injection Hlast as ->. exact Hs.
  - assert (Hrest : forall a', a' ∈ b :: rest' ->
                               forall d x y, transform d h a' x <> Ok y).
    { apply IH; [|exact Hlast].
      intros i a' b' Ha' Hb'. apply (Hnext (S i) a' b'); assumption. }
    apply elem_of_cons in Ha as [->|Ha]; [|by apply Hrest].
    destruct (Hnext 0 a0 b eq_refl eq_refl) as [cls Ha0].
    intros d x y. destruct d as [|d]; [discriminate|].
    rewrite chain_transform_S, Ha0.
    destruct (step_logic cls x) as [z|e]; cbn [mbind Result_bind];
      [|discriminate].
    apply Hrest. by left.
Qed.
End Steps.

(** X14. A step constructed without [next_step] delegates to a new
    [IdentityTransformer]: its [transform] is its own logic. *)
Theorem fresh_step_delegates_to_sink (h : list Obj) (cls : StepClass)
    (d : nat) (x : PyObject) :
  transform (S (S d))
    (DatasetTransformerStepBase_init h cls None).2
    (DatasetTransformerStepBase_init h cls None).1 x
  = step_logic cls x.
Proof.
  unfold DatasetTransformerStepBase_init, alloc. simpl fst. simpl snd.
  rewrite chain_transform_S. rewrite length_app. simpl length.
  replace ((h ++ [IdentityTransformer])
             ++ [DatasetTransformerStepBase cls (length h)])
    with (h ++ [IdentityTransformer;
                DatasetTransformerStepBase cls (length h)])
    by (rewrite <- app_assoc; reflexivity).
  rewrite (lookup_app_r h) by lia.
  replace (length h + 1 - length h) with 1 by lia. simpl.
  destruct (step_logic cls x) as [y|e]; simpl; [|reflexivity].
  rewrite list_lookup_middle by reflexivity. reflexivity.
Qed.

(** X15. [set_next_step] on a step rebinds its next reference and nothing
    else: the class of the step, every other object and the size of the
    heap are as before. *)
Theorem set_next_step_rebinds (h : list Obj) (s n : loc) :
  is_step h s = true ->
  exists h',
    set_next_step h s n = Ok h'
    /\ next_step_of h' s = Some n
    /\ class_of h' s = class_of h s
    /\ length h' = length h
    /\ forall l, l <> s -> h' !! l = h !! l.
Proof.
  intros (cls & n0 & Hs)%DecoratorFacts.is_step_lookup.
  pose proof (lookup_lt_Some _ _ _ Hs) as Hlt.
  eexists. split; [apply (DecoratorFacts.set_next_step_step _ _ cls n0), Hs|].
  unfold next_step_of, class_of. rewrite Hs.
  repeat split.
  - heap_lookup. reflexivity.
  - heap_lookup. reflexivity.
  - apply length_insert.
  - intros l Hl. heap_lookup. reflexivity.
Qed.

Lemma set_next_step_rebinds_witness :
  exists h',
    set_next_step
      [IdentityTransformer; DatasetTransformerStepBase AddTotalsRowTransformer 0;
       IdentityTransformer] 1 2 = Ok h'
    /\ next_step_of h' 1 = Some 2.
Proof.
  destruct (set_next_step_rebinds
              [IdentityTransformer;
               DatasetTransformerStepBase AddTotalsRowTransformer 0;
               IdentityTransformer] 1 2) as (h' & Hset & Hnext & _).
  - reflexivity.
  - exists h'. split; assumption.
Defined.

(** X16. [append] of an object that is not a step (an
    [IdentityTransformer], a pipeline, a dataset) raises
    [AttributeError]: the object has no [set_next_step]. *)
Theorem append_non_step_raises (h : list Obj) (self transformer : loc) :
  is_step h transformer = false ->
  Pipeline_append h self transformer = Raise AttributeError.
Proof.
  unfold is_step, Pipeline_append, alloc, set_next_step. intros Hns.
  destruct (decide (transformer < length h)) as [Hlt|Hge].
  - rewrite lookup_app_l by exact Hlt.
    destruct (h !! transformer) as [[]|]; try discriminate; reflexivity.
  - destruct (decide (transformer = length h)) as [->|Hne].
    + rewrite list_lookup_middle by reflexivity. reflexivity.
    + rewrite lookup_ge_None_2; [reflexivity|].
      rewrite length_app. simpl. lia.
Qed.

Lemma append_non_step_raises_witness :
  Pipeline_append [Pipeline []; Pipeline []; IdentityTransformer] 0 1
  = Raise AttributeError
  /\ Pipeline_append [Pipeline []; Pipeline []; IdentityTransformer] 0 2
     = Raise AttributeError.
Proof.
  split; apply append_non_step_raises; reflexivity.
Defined.

(** X17. [append] of a step that the pipeline does not hold keeps the
    pipeline well wired: its steps are distinct, each one refers to the
    next and the last one to an [IdentityTransformer]. *)
Theorem append_keeps_well_wired (h : list Obj) (p t : loc) (ts : list loc) :
  well_wired h p ts ->
  is_step h t = true ->
  t ∉ ts ->
  exists h',
    Pipeline_append h p t = Ok (None_, h')
    /\ well_wired h' p (ts ++ [t]).
Proof.
  intros Hw Ht Hnotin.
  destruct (DecoratorFacts.well_wired_append h p ts t Hw Ht Hnotin)
    as (h' & Happ & Hw' & _).
  exists h'. split; assumption.
Qed.

Lemma append_keeps_well_wired_witness :
  exists h',
    Pipeline_append
      [Pipeline [2]; IdentityTransformer;
       DatasetTransformerStepBase AddTotalsRowTransformer 3; IdentityTransformer;
       IdentityTransformer;
       DatasetTransformerStepBase (ColumnsSelectorTransformer ["salary"]) 4]
      0 5 = Ok (None_, h')
    /\ well_wired h' 0 [2; 5].
Proof.
  apply (append_keeps_well_wired _ 0 5 [2]).
  - repeat split; try reflexivity.
    + apply NoDup_singleton.
    + repeat constructor.
  - reflexivity.
  - intros Hin%list_elem_of_singleton. discriminate Hin.
Defined.

(** X18. The constructor, called with one or more distinct steps, builds
    a well wired pipeline, and [transform] on it applies the logic of the
    steps in the order given, when the depth allows one call for the
    pipeline, one per step and one for the sink. *)
Theorem constructor_wires_distinct_steps (h : list Obj) (s : loc)
    (ts : list loc) (d : nat) (x : PyObject) :
  NoDup (s :: ts) ->
  Forall (fun s => is_step h s = true) (s :: ts) ->
  exists h',
    Pipeline_init h (s :: ts) = Ok (length h, h')
    /\ well_wired h' (length h) (s :: ts)
    /\ transform (S (S (S (length ts))) + d) h' (length h) x
       = steps_logic h (s :: ts) x.
Proof. apply DecoratorFacts.Pipeline_of_distinct_steps. Qed.

Lemma constructor_wires_distinct_steps_witness :
  exists h',
    Pipeline_init
      [IdentityTransformer;
       DatasetTransformerStepBase (ColumnsSelectorTransformer ["salary"]) 0;
       IdentityTransformer;
       DatasetTransformerStepBase AddTotalsRowTransformer 2] [1; 3]
    = Ok (4, h')
    /\ transform 4 h' 4 None_ = Ok Ellipsis.
Proof.
  destruct (constructor_wires_distinct_steps
              [IdentityTransformer;
               DatasetTransformerStepBase (ColumnsSelectorTransformer ["salary"]) 0;
               IdentityTransformer;
               DatasetTransformerStepBase AddTotalsRowTransformer 2]
              1 [3] 0 None_) as (h' & Hinit & _ & Hrun).
  - apply NoDup_cons. split; [|apply NoDup_singleton].
    intros Hin%list_elem_of_singleton. discriminate Hin.
  - repeat constructor.
  - exists h'. split; [exact Hinit | exact Hrun].
Defined.

(** X19. After [append] of a new step to a well wired pipeline,
    [transform] applies the logic of the former steps and then the logic
    of the new one. *)
Theorem append_extends_chain (h : list Obj) (p t : loc) (ts : list loc) :
  well_wired h p ts ->
  is_step h t = true ->
  t ∉ ts ->
  exists h',
    Pipeline_append h p t = Ok (None_, h')
    /\ forall d x,
         transform (S (S (S (length ts))) + d) h' p x
         = steps_logic h (ts ++ [t]) x.
Proof.
  intros Hw Ht Hnotin.
  destruct (DecoratorFacts.well_wired_append h p ts t Hw Ht Hnotin)
    as (h' & Happ & Hw' & _ & Hcls).
  exists h'. split; [exact Happ|]. intros d x.
  assert (Hext : steps_logic h' (ts ++ [t]) x = steps_logic h (ts ++ [t]) x).
  { apply DecoratorFacts.steps_logic_ext. intros s Hs. apply Hcls.
    apply DecoratorFacts.is_step_lt.
    apply elem_of_app in Hs as [Hs|Hs];
      [|apply list_elem_of_singleton in Hs as ->; exact Ht].
    destruct Hw as (_ & _ & Hsteps & _). rewrite Forall_forall in Hsteps.
    by apply Hsteps. }
  rewrite <- Hext.
  destruct ts as [|s ts]; simpl app in *.
  - apply (transform_well_wired h' p t [] d x Hw').
  - replace (length (s :: ts)) with (length (ts ++ [t]))
      by (rewrite length_app; simpl; lia).
    apply (transform_well_wired h' p s (ts ++ [t]) d x Hw').
Qed.

Lemma append_extends_chain_witness :
  exists h',
    Pipeline_append
      [Pipeline [2]; IdentityTransformer;
       DatasetTransformerStepBase AddTotalsRowTransformer 3; IdentityTransformer;
       IdentityTransformer;
       DatasetTransformerStepBase (ColumnsSelectorTransformer ["salary"]) 4]
      0 5 = Ok (None_, h')
    /\ transform 4 h' 0 None_ = Ok Ellipsis.
Proof.
  destruct (append_extends_chain
              [Pipeline [2]; IdentityTransformer;
               DatasetTransformerStepBase AddTotalsRowTransformer 3;
               IdentityTransformer; IdentityTransformer;
               DatasetTransformerStepBase (ColumnsSelectorTransformer ["salary"]) 4]
              0 5 [2]) as (h' & Happ & Hrun).
  - repeat split; try reflexivity.
    + apply NoDup_singleton.
    + repeat constructor.
  - reflexivity.
  - intros Hin%list_elem_of_singleton. discriminate Hin.
  - exists h'. split; [exact Happ | exact (Hrun 0 None_)].
Defined.

(** X20. [append] of the step that is already the last stage of a well
    wired pipeline returns, and makes that step its own next step: from
    then on [transform] of the pipeline returns no value, whatever the
    depth allowed. *)
Theorem reappended_last_stage_never_returns (h : list Obj) (p s : loc)
    (ts : list loc) :
  well_wired h p ts ->
  last ts = Some s ->
  exists h',
    Pipeline_append h p s = Ok (None_, h')
    /\ next_step_of h' s = Some s
    /\ forall d x y, transform d h' p x <> Ok y.
Proof.
  intros (Hst & Hnodup & Hsteps & Hlinked) Hlast.
  apply DecoratorFacts.stages_lookup in Hst as Hp.
  rewrite Forall_forall in Hsteps.
  assert (Hs_in : s ∈ ts) by (eapply last_Some_elem_of, Hlast).
  destruct (DecoratorFacts.is_step_lookup h s (Hsteps s Hs_in))
    as (cls & n & Hs).
  pose proof (lookup_lt_Some _ _ _ Hp) as Hlt_p.
  pose proof (lookup_lt_Some _ _ _ Hs) as Hlt_s.
  assert (s <> p) by congruence.
  eexists. split; [apply (Pipeline_append_again h p s ts cls n); assumption|].
  set (h' := <[p := _]> _).
  assert (Hs' : h' !! s = Some (DatasetTransformerStepBase cls s)).
  { subst h'. heap_lookup. reflexivity. }
  split; [unfold next_step_of; rewrite Hs'; reflexivity|].
  assert (Hchain : forall a, a ∈ ts -> forall d x y, transform d h' a x <> Ok y).
  { apply (chain_never_returns h' ts s).
    - intros i a b Ha Hb.
      pose proof (linked_lookup h ts i a b Hlinked Ha Hb) as Hnext.
      assert (Ha_in : a ∈ ts) by (eapply list_elem_of_lookup_2, Ha).
      destruct (DecoratorFacts.is_step_lookup h a (Hsteps a Ha_in))
        as (cls_a & n_a & Hha).
      unfold next_step_of in Hnext. rewrite Hha in Hnext.
      injection Hnext as ->.
      assert (a <> s).
      { intros ->. rewrite last_lookup in Hlast.
        pose proof (NoDup_lookup _ _ _ _ Hnodup Ha Hlast) as Hi.
        apply lookup_lt_Some in Hb. lia. }
      assert (a <> p) by congruence.
      pose proof (lookup_lt_Some _ _ _ Hha).
      exists cls_a. subst h'. heap_lookup. exact Hha.
    - exact Hlast.
    - apply (self_loop_never_returns h' s cls Hs'). }
  assert (Hp' : h' !! p = Some (Pipeline (ts ++ [s]))).
  { subst h'. heap_lookup. reflexivity. }
  intros d x y. destruct d as [|d]; [discriminate|].
  rewrite chain_transform_S, Hp'.
  destruct ts as [|a ts']; [discriminate Hlast|].
  change (((a :: ts') ++ [s]) !! 0) with (Some a). cbv beta iota.
  apply Hchain. by left.
Qed.

Lemma reappended_last_stage_never_returns_witness :
  exists h',
    Pipeline_append one_stage_heap 0 2 = Ok (None_, h')
    /\ transform 9 h' 0 Ellipsis <> Ok Ellipsis.
Proof.
  destruct (reappended_last_stage_never_returns one_stage_heap 0 2 [2])
    as (h' & Happ & _ & Hnever).
  - repeat split; try reflexivity.
    + apply NoDup_singleton.
    + repeat constructor.
  - reflexivity.
  - exists h'. split; [exact Happ | apply Hnever].
Defined.

(** X21. A result of [transform] other than [RecursionError] does not
    depend on the depth allowed: with a larger depth the result is the
    same. *)
Theorem chain_transform_depth_monotone (d d' : nat) (h : list Obj) (s : loc)
    (x : PyObject) (r : Result PyObject) :
  transform d h s x = r ->
  r <> Raise RecursionError ->
  d <= d' ->
  transform d' h s x = r.
Proof.
  intros Hrun Hr Hle. induction Hle as [|d' Hle IH].
  - exact Hrun.
  - apply chain_transform_mono_S; assumption.
Qed.

Lemma chain_transform_depth_monotone_witness :
  transform 9 one_stage_heap 0 Ellipsis = Ok Ellipsis.
Proof.
  apply (chain_transform_depth_monotone 3 9); [reflexivity | discriminate | lia].
Defined.

(** X22. Decoration by the constructor: a step constructed with
    [next_step] runs its own logic and hands the result to [next_step];
    what [next_step] returned before the step was constructed is what the
    step returns. *)
Theorem constructed_step_decorates (h : list Obj) (cls : StepClass) (n : loc)
    (d : nat) (x y z : PyObject) :
  step_logic cls x = Ok y ->
  transform d h n y = Ok z ->
  transform (S d)
    (DatasetTransformerStepBase_init h cls (Some n)).2
    (DatasetTransformerStepBase_init h cls (Some n)).1 x
  = Ok z.
Proof.
  intros Hlogic Hnext.
  unfold DatasetTransformerStepBase_init, alloc. simpl fst. simpl snd.
  rewrite chain_transform_S, list_lookup_middle by reflexivity.
  rewrite Hlogic. cbn [mbind Result_bind].
  apply transform_extend, Hnext.
Qed.

Lemma constructed_step_decorates_witness :
  transform 3
    (DatasetTransformerStepBase_init
       [IdentityTransformer; DatasetTransformerStepBase AddTotalsRowTransformer 0]
       (ColumnsSelectorTransformer ["salary"]) (Some 1)).2
    2 None_
  = Ok Ellipsis.
Proof.
  apply (constructed_step_decorates
           [IdentityTransformer;
            DatasetTransformerStepBase AddTotalsRowTransformer 0]
           (ColumnsSelectorTransformer ["salary"]) 1 2 None_ Ellipsis Ellipsis);
    reflexivity.
Defined.

(** X23. The two pipelines agree on one stage or more: an aggregating
    pipeline whose stages are transformers of the classes [c :: cs] and a
    well wired linked-chain pipeline whose steps have the same classes
    give the same result on every input. *)
Theorem flavours_agree (hc : list Composite_pipelining.Obj) (pc : loc)
    (tsc : list loc) (hd : list Obj) (pd s : loc) (ts : list loc)
    (c : StepClass) (cs : list StepClass) (d d' : nat) (x : PyObject) :
  Composite_pipelining.stages hc pc = Some tsc ->
  Forall2 (fun t k => hc !! t = Some (class_object k)) tsc (c :: cs) ->
  well_wired hd pd (s :: ts) ->
  Forall2 (fun t k => class_of hd t = Some k) (s :: ts) (c :: cs) ->
  Composite_pipelining.transform (S (S d)) hc pc x
  = transform (S (S (S (length ts))) + d') hd pd x.
Proof.
  intros Hpc Hclasses Hw Hcs.
  rewrite (transform_well_wired hd pd s ts d' x Hw).
  rewrite (steps_logic_classes hd (s :: ts) (c :: cs) x Hcs).
  rewrite (CompositeFacts.transform_pipeline _ _ _ _ _ Hpc).
  clear Hpc Hw Hcs. revert x.
  induction Hclasses as [|t k tsc' cs' Ht _ IH]; intros x.
  - reflexivity.
  - cbn [Composite_pipelining.transform_loop classes_logic].
    assert (Hstep : Composite_pipelining.transform (S d) hc t x = step_logic k x).
    { simpl. rewrite Ht. destruct k; reflexivity. }
    rewrite Hstep. destruct (step_logic k x) as [y|e]; simpl; [apply IH|reflexivity].
Qed.

Lemma flavours_agree_witness :
  Composite_pipelining.transform 2
    [Composite_pipelining.AddTotalsRowTransformer;
     Composite_pipelining.Pipeline [0]] 1 None_
  = transform 3 one_stage_heap 0 None_.
Proof.
  apply (flavours_agree _ 1 [0] one_stage_heap 0 2 [] AddTotalsRowTransformer []
           0 0 None_).
  - reflexivity.
  - repeat constructor.
  - repeat split; try reflexivity.
    + apply NoDup_singleton.
    + repeat constructor.
  - repeat constructor.
Defined.

End DecoratorLaws.

(** ** The loggers *)

Module LoggerLaws.
Import Composite_side_effects.

Section Strings.
Lemma string_app_assoc (a b c : string) : (a +:+ b) +:+ c = a +:+ b +:+ c.
Proof.
  induction a as [|ch a IH]; [reflexivity | exact (f_equal (String ch) IH)].
Qed.

Lemma string_app_nil_r (a : string) : a +:+ "" = a.
Proof.
  induction a as [|ch a IH]; [reflexivity | exact (f_equal (String ch) IH)].
Qed.

Lemma followed_by_assoc (a b c : World) :
  followed_by (followed_by a b) c = followed_by a (followed_by b c).
Proof. unfold followed_by. simpl. by rewrite !string_app_assoc. Qed.

Lemma followed_by_nothing (w : World) : followed_by w nothing_written = w.
Proof.
  destruct w as [out txt]. unfold followed_by. simpl.
  by rewrite !string_app_nil_r.
Qed.
End Strings.

(** Induction on a logger, with the loggers of a [ForEachLogger] as
    premises. *)
Lemma ILogger_induction (P : ILogger -> Prop) :
  P StdoutLogger ->
  P FileLogger ->
  P DatabaseLogger ->
  (forall loggers, Forall P loggers -> P (ForEachLogger loggers)) ->
  (forall hot cold, P hot -> P cold -> P (HotColdLogger hot cold)) ->
  forall logger, P logger.
Proof.
  intros Hstdout Hfile Hdb Hforeach Hhotcold.
  fix IH 1. intros [| | |loggers|hot cold].
  - exact Hstdout.
  - exact Hfile.
  - exact Hdb.
  - apply Hforeach. induction loggers as [|l rest IHrest].
    + constructor.
    + constructor; [apply IH | exact IHrest].
  - apply Hhotcold; apply IH.
Qed.

Lemma for_each_only_appends (message : string) (log_level : LogLevel)
    (loggers : list ILogger) :
  Forall (fun l => forall w, log l message log_level w
                             = followed_by w (log l message log_level nothing_written))
         loggers ->
  forall w,
    fold_left (fun w' l => log l message log_level w') loggers w
    = followed_by w
        (fold_left (fun w' l => log l message log_level w') loggers nothing_written).
Proof.
  induction 1 as [|l rest Hl _ IH]; intros w; simpl.
  - symmetry. apply followed_by_nothing.
  - rewrite IH. rewrite (IH (log l message log_level nothing_written)).
    rewrite (Hl w). apply followed_by_assoc.
Qed.

(** X24. Every logger only appends: what the standard output and the file
    held stays in front, and what is added does not depend on it. *)
Theorem log_only_appends (self : ILogger) (message : string)
    (log_level : LogLevel) (w : World) :
  log self message log_level w
  = followed_by w (log self message log_level nothing_written).
Proof.
  revert w. induction self as [| | |loggers IH|hot cold IHhot IHcold]
    using ILogger_induction; intros w.
  - unfold followed_by. simpl. rewrite string_app_nil_r. reflexivity.
  - unfold followed_by. simpl. rewrite string_app_nil_r. reflexivity.
  - symmetry. apply followed_by_nothing.
  - cbn [log]. apply for_each_only_appends, IH.
  - cbn [log]. destruct (bool_decide _); [apply IHhot | apply IHcold].
Qed.

(** X25. A [ForEachLogger] held by a [ForEachLogger] can be replaced by
    its loggers, at its place. *)
Theorem nested_for_each_flattens (before inner after : list ILogger)
    (message : string) (log_level : LogLevel) (w : World) :
  log (ForEachLogger (before ++ ForEachLogger inner :: after)) message log_level w
  = log (ForEachLogger (before ++ inner ++ after)) message log_level w.
Proof.
  cbn [log]. rewrite !fold_left_app. reflexivity.
Qed.

(** X26. For every message, level and state of the outputs,
    [BadGodLogger], the loggers of [improved_main] called in turn and the
    logger of [good_main] write the same: the formatted message once to
    the standard output, with a newline, and once to the file. *)
Theorem loggers_write_the_same (message : string) (log_level : LogLevel)
    (w : World) :
  BadGodLogger_log message log_level w
  = {| stdout := stdout w +:+ formatted message log_level +:+ newline;
       log_txt := log_txt w +:+ formatted message log_level |}
  /\ log (ForEachLogger improved_main_loggers) message log_level w
     = BadGodLogger_log message log_level w
  /\ log good_main_logger message log_level w
     = BadGodLogger_log message log_level w.
Proof.
  repeat split; try reflexivity. destruct log_level; reflexivity.
Qed.

End LoggerLaws.

(** ** The request handlers *)

Module HttpLaws.
Import Decorator_Http.

Section Decorators.
Implicit Types (inner outer : IHttpRequestHandler) (log_txt : string).

Lemma logged_outcome (f : string -> string * Outcome) log_txt :
  (logged f log_txt).2 = (f log_txt).2.
Proof. unfold logged. destruct (f log_txt). reflexivity. Qed.

Lemma guarded_outcome (f : string -> string * Outcome) log_txt :
  (guarded f log_txt).2
  = match (f log_txt).2 with
    | Returns response => Returns response
    | Raises _ => Returns {| status_code := 500 |}
    end.
Proof. unfold guarded. destruct (f log_txt). reflexivity. Qed.

(** Under decorators the outcome of the inner handler is kept, or an
    exception is turned into the response 500. *)
Lemma decorates_outcome inner outer (request : loc) log_txt :
  decorates inner outer ->
  (handle outer request log_txt).2 = (handle inner request log_txt).2
  \/ ((exists e, (handle inner request log_txt).2 = Raises e)
      /\ (handle outer request log_txt).2 = Returns {| status_code := 500 |}).
Proof.
  induction 1 as [|outer _ IH|outer _ IH].
  - left. reflexivity.
  - cbn [handle]. rewrite logged_outcome. exact IH.
  - cbn [handle]. rewrite guarded_outcome.
    destruct IH as [->|[[e He] ->]].
    + destruct (handle inner request log_txt).2 as [r|e] eqn:Hout.
      * left. reflexivity.
      * right. split; [by exists e | reflexivity].
    + right. split; [by exists e | reflexivity].
Qed.
End Decorators.

(** X27. Decorators do not change the response of a handler that returns:
    whatever decorators of the file are put around a handler, in whatever
    order, a response it returns is the response of the whole. *)
Theorem decorators_keep_response (inner outer : IHttpRequestHandler)
    (request : loc) (log_txt : string) (response : HttpResponse) :
  decorates inner outer ->
  (handle inner request log_txt).2 = Returns response ->
  (handle outer request log_txt).2 = Returns response.
Proof.
  intros Hdec Hret.
  destruct (decorates_outcome inner outer request log_txt Hdec)
    as [->|[[e He] _]]; [exact Hret | congruence].
Qed.

Lemma decorators_keep_response_witness :
  (handle
     (LoggerHttpRequestHandlerDecorator
        (ExceptionHandlingHttpRequestHandlerDecorator
           (LoggerHttpRequestHandlerDecorator OkHttpRequestHandler))) 0 "").2
  = Returns {| status_code := 200 |}.
Proof.
  apply (decorators_keep_response OkHttpRequestHandler).
  - repeat constructor.
  - reflexivity.
Defined.

(** X28. A handler whose outermost decorator is an
    [ExceptionHandlingHttpRequestHandlerDecorator] never raises, whatever
    stands under it: it returns a response, and when the inner handler
    raises, under any decorators in between, the response is 500. *)
Theorem exception_handling_isolates (inner outer : IHttpRequestHandler)
    (request : loc) (log_txt : string) :
  decorates inner outer ->
  exists response,
    (handle (ExceptionHandlingHttpRequestHandlerDecorator outer)
       request log_txt).2 = Returns response
    /\ (forall e, (handle inner request log_txt).2 = Raises e ->
                  response = {| status_code := 500 |}).
Proof.
  intros Hdec. cbn [handle]. rewrite guarded_outcome.
  destruct (decorates_outcome inner outer request log_txt Hdec)
    as [->|[[e He] ->]].
  - destruct (handle inner request log_txt).2 as [r|e].
    + exists r. split; [reflexivity|]. intros e He. discriminate He.
    + eexists. split; reflexivity.
  - eexists. split; reflexivity.
Qed.

Lemma exception_handling_isolates_witness :
  exists response,
    (handle
       (ExceptionHandlingHttpRequestHandlerDecorator
          (LoggerHttpRequestHandlerDecorator
             (LoggerHttpRequestHandlerDecorator
                (OtherHandler (fun _ log_txt => (log_txt, Raises "boom"))))))
       0 "").2 = Returns response
    /\ response = {| status_code := 500 |}.
Proof.
  destruct (exception_handling_isolates
              (OtherHandler (fun _ log_txt => (log_txt, Raises "boom")))
              (LoggerHttpRequestHandlerDecorator
                 (LoggerHttpRequestHandlerDecorator
                    (OtherHandler (fun _ log_txt => (log_txt, Raises "boom")))))
              0 "") as (response & Hret & H500).
  - repeat constructor.
  - exists response. split; [exact Hret|]. apply (H500 "boom"). reflexivity.
Defined.

(** X29. The handlers written by inheritance and the handlers composed
    from decorators do the same on every request and every content of the
    file: [my_handler] of [main], like
    [ExceptionHandlingLoggingOkHttpRequestHandler], appends "begin" and
    "end" to the file and returns the response 200. *)
Theorem inheritance_is_decoration (request : loc) (log_txt : string) :
  handle LoggingOkHttpRequestHandler request log_txt
  = handle (LoggerHttpRequestHandlerDecorator OkHttpRequestHandler)
      request log_txt
  /\ handle ExceptionHandlingLoggingOkHttpRequestHandler request log_txt
     = handle my_handler request log_txt
  /\ handle my_handler request log_txt
     = (log_txt +:+ "Http request handler begin" +:+ "Http request handler end",
        Returns {| status_code := 200 |}).
Proof. repeat split; reflexivity. Qed.

(** X30. Decorators only append to the file: when what the inner handler
    leaves in the file starts with what the file held, so does what the
    decorated handler leaves. *)
Theorem decorators_only_append (inner outer : IHttpRequestHandler)
    (request : loc) (log_txt : string) :
  decorates inner outer ->
  (exists added, (handle inner request log_txt).1 = log_txt +:+ added) ->
  exists added, (handle outer request log_txt).1 = log_txt +:+ added.
Proof.
  intros Hdec Hinner. induction Hdec as [|outer _ IH|outer _ IH].
  - exact Hinner.
  - destruct IH as [added Hadded]. cbn [handle]. unfold logged.
    destruct (handle outer request log_txt) as [log_txt' outcome].
    simpl in *. subst log_txt'.
    eexists. rewrite LoggerLaws.string_app_assoc. reflexivity.
  - destruct IH as [added Hadded]. cbn [handle]. unfold guarded.
    destruct (handle outer request log_txt) as [log_txt' outcome].
    simpl in *. exists added. exact Hadded.
Qed.

Lemma decorators_only_append_witness :
  exists added,
    (handle my_handler 0 "earlier").1 = "earlier" +:+ added.
Proof.
  apply (decorators_only_append OkHttpRequestHandler my_handler 0 "earlier").
  - repeat constructor.
  - exists "". reflexivity.
Defined.

End HttpLaws.
